(** * PixelForge: the filter bank and the layer stack

    A shallow embedding of [FilterManager] (the per-pixel filters and their
    dispatch) and of [Document] / [Layer] (merge-down and flatten), followed
    by the properties of the specification that concern them.

    Conventions.
    - A JavaScript Number is an IEEE 754 binary64 value: Rocq's primitive
      [float], whose [+], [-], [*], [/] are the ECMAScript operators.
    - A [Uint8ClampedArray] is a [list byte]; a read out of range yields
      [undefined], which every use in this code turns into [NaN]; a write out
      of range is dropped, which is what stdpp's list insert does.
    - Loop counters, coordinates and array indices are integer-valued Numbers
      far below 2^53, on which Number arithmetic is exact: they are [nat] or
      [Z]. *)

From Stdlib Require Import ZArith Lia Floats.
From Stdlib.Strings Require Import Byte.
From stdpp Require Import gmap strings list sorting.

Set Warnings "-inexact-float".

(** ** ECMAScript Number operations *)

Module JS.

Local Open Scope float_scope.

(** The Number of an integer (exact below 2^53). *)
Definition of_Z (z : Z) : float :=
  match z with
  | Z0 => 0
  | Zpos p => SF2Prim (S754_finite false p 0)
  | Zneg p => SF2Prim (S754_finite true p 0)
  end.

Definition of_nat (n : nat) : float := of_Z (Z.of_nat n).

(** An array element read as a Number. *)
Definition of_byte (b : byte) : float := of_Z (Z.of_N (Byte.to_N b)).

(** [floor] and the position of a finite non-zero Number within the unit
    interval above it: [Lt], [Eq], [Gt] as the fractional part is below,
    at or above one half. *)
Definition floor_frac (s : bool) (m : positive) (e : Z) : Z * comparison :=
  let n := if s then Zneg m else Zpos m in
  if (0 <=? e)%Z then (n * 2 ^ e, Lt)%Z
  else
    let d := (2 ^ (- e))%Z in
    ((n / d)%Z, (2 * (n mod d) ?= d)%Z).

(** [Math.floor]. *)
Definition Math_floor (x : float) : float :=
  match Prim2SF x with
  | S754_finite s m e =>
      if (0 <=? e)%Z then x
      else
        let z := fst (floor_frac s m e) in
        if (z =? 0)%Z then 0 else of_Z z
  | _ => x
  end.

(** [Math.ceil]. *)
Definition Math_ceil (x : float) : float := - Math_floor (- x).

(** [Math.round]: nearest integer, a tie goes up. *)
Definition Math_round (x : float) : float :=
  match Prim2SF x with
  | S754_finite s m e =>
      if (0 <=? e)%Z then x
      else
        let '(f, c) := floor_frac s m e in
        let z := match c with Lt => f | _ => (f + 1)%Z end in
        if (z =? 0)%Z then (if s then neg_zero else 0) else of_Z z
  | _ => x
  end.

(** [Math.abs]. *)
Definition Math_abs (x : float) : float := abs x.

(** [Math.max] and [Math.min] of two Numbers: [NaN] if either is, and
    [+0] above [-0]. *)
Definition Math_max (a b : float) : float :=
  if is_nan a || is_nan b then nan
  else if a <? b then b
  else if b <? a then a
  else if get_sign a then b else a.

Definition Math_min (a b : float) : float :=
  if is_nan a || is_nan b then nan
  else if a <? b then a
  else if b <? a then b
  else if get_sign a then a else b.

Definition Math_max3 (a b c : float) : float := Math_max (Math_max a b) c.
Definition Math_min3 (a b c : float) : float := Math_min (Math_min a b) c.

Definition Math_PI : float := 3.141592653589793.

(** The remainder operator [x % y]: truncating, the sign is the
    dividend's, the result is exact. *)
Definition rem (x y : float) : float :=
  match Prim2SF x, Prim2SF y with
  | S754_nan, _ | _, S754_nan => nan
  | S754_infinity _, _ => nan
  | _, S754_zero _ => nan
  | S754_zero _, _ => x
  | _, S754_infinity _ => x
  | S754_finite sx mx ex, S754_finite _ my ey =>
      let e := Z.min ex ey in
      let r := ((Zpos mx * 2 ^ (ex - e)) mod (Zpos my * 2 ^ (ey - e)))%Z in
      match r with
      | Zpos p => SF2Prim (S754_finite sx p e)
      | _ => if sx then neg_zero else 0
      end
  end.

(** Strict equality of Numbers ([===], and the [case] of a [switch]). *)
Definition strict_eq (x y : float) : bool := x =? y.

(** The conversion applied by a store into a [Uint8ClampedArray]
    (ToUint8Clamp): [NaN] is 0, the value is clamped to 0..255 and rounded
    to the nearest integer, a tie going to the even one. *)
Definition byte_of_Z (z : Z) : byte :=
  match Byte.of_N (Z.to_N z) with Some b => b | None => xff end.

Definition ToUint8Clamp (x : float) : byte :=
  if is_nan x then x00
  else if x <=? 0 then x00
  else if 255 <=? x then xff
  else
    match Prim2SF x with
    | S754_finite s m e =>
        let '(f, c) := floor_frac s m e in
        byte_of_Z
          match c with
          | Lt => f
          | Gt => f + 1
          | Eq => if Z.even f then f else f + 1
          end
    | _ => x00
    end.

(** An integer-valued Number used as an array length or index: [None]
    when it is not an integer in 0 .. 2^32 - 1 ([new Array] then throws a
    RangeError, and an element access then names a property that is not an
    element). *)
Definition to_index (x : float) : option nat :=
  if (0 <=? x) && (x <? 4294967296) then
    match Prim2SF x with
    | S754_zero _ => Some 0%nat
    | S754_finite _ m e =>
        if (0 <=? e)%Z then Some (Z.to_nat (Zpos m * 2 ^ e))
        else if (Zpos m mod 2 ^ (- e) =? 0)%Z
             then Some (Z.to_nat (Zpos m / 2 ^ (- e)))
             else None
    | _ => None
    end
  else None.

End JS.

Import JS.

(** ** Pixel buffers *)

(** [ImageData]: the sample array with its dimensions. *)
Record ImageData := mkImageData {
  data : list byte;
  width : nat;
  height : nat
}.

(** The invariant the browser keeps of every [ImageData]. *)
Definition valid_ImageData (img : ImageData) : Prop :=
  0 < width img ∧ 0 < height img ∧
  length (data img) = width img * height img * 4.

(** [new ImageData(data, width, height)] throws unless the array holds a
    non-zero number of samples, four for each of [width * height] pixels. *)
Definition ImageData_new (d : list byte) (w h : nat) : option ImageData :=
  if (0 <? length d) && (length d =? w * h * 4)
  then Some (mkImageData d w h) else None.

(** [data[i]] as it enters arithmetic, and as it is stored back. *)
Definition rd (d : list byte) (i : nat) : float :=
  match d !! i with Some b => of_byte b | None => nan end.

(** [new Uint8ClampedArray(n)]. *)
Definition new_Uint8ClampedArray (n : nat) : list byte := replicate n x00.

(** The indices [0, 4, 8, ...] below [len]: [for (i = 0; i < len; i += 4)]. *)
Definition step4 (len : nat) : list nat :=
  map (λ k, 4 * k) (seq 0 ((len + 3) / 4)).

(** The pixels in scan order:
    [for (y = 0; y < height; y++) for (x = 0; x < width; x++)]. *)
Definition pixel_coords (w h : nat) : list (nat * nat) :=
  flat_map (λ y, map (λ x, (x, y)) (seq 0 w)) (seq 0 h).

(** The four stores that end the body of a scan. *)
Definition store4 (output : list byte) (outputIdx : nat)
    (v : float * float * float * float) : list byte :=
  let '(r, g, b, a) := v in
  <[outputIdx + 3 := ToUint8Clamp a]>
    (<[outputIdx + 2 := ToUint8Clamp b]>
       (<[outputIdx + 1 := ToUint8Clamp g]>
          (<[outputIdx := ToUint8Clamp r]> output))).

(** A scan that computes the four channels of every pixel from the source
    alone and stores them at [outputIdx = (y * width + x) * 4]. *)
Definition scan (w h : nat) (body : nat → nat → float * float * float * float)
    (output : list byte) : list byte :=
  fold_left (λ out '(x, y), store4 out ((y * w + x) * 4) (body x y))
            (pixel_coords w h) output.

(** [Math.max(0, Math.min(limit - 1, v))] on a coordinate. *)
Definition clamp_coord (limit : nat) (v : Z) : nat :=
  Z.to_nat (Z.max 0 (Z.min (Z.of_nat limit - 1) v)).

(** The offsets [-half .. half]. *)
Definition offsets (half : nat) : list Z :=
  map (λ k, (Z.of_nat k - Z.of_nat half)%Z) (seq 0 (2 * half + 1)).

(** The taps of a square window in the order of
    [for (ky ...) for (kx ...)]. *)
Definition window {A} (ks : list A) : list (A * A) :=
  flat_map (λ ky, map (λ kx, (kx, ky)) ks) ks.

(** ** The filters *)

Section Filters.

(** [Math.exp] is implementation-approximated and [Math.random] is the
    host's: the first is a function on Numbers, the second the sequence of
    the values that successive calls return. *)
Variable Math_exp : float → float.
Variable Math_random : nat → float.

(** The factor of the contrast formula, and its divisor. *)
Definition contrast_divisor (contrast : float) : float :=
  (255 * (259 - contrast))%float.

Definition contrastFactor (contrast : float) : float :=
  ((259 * (contrast + 255)) / contrast_divisor contrast)%float.

Definition applyBrightnessContrast (data : list byte)
    (brightness contrast : float) : list byte :=
  let brightnessFactor := (brightness / 100)%float in
  let contrastFactor := contrastFactor contrast in
  fold_left (λ data i,
    let r := (rd data i + brightnessFactor * 255)%float in
    let g := (rd data (i + 1) + brightnessFactor * 255)%float in
    let b := (rd data (i + 2) + brightnessFactor * 255)%float in
    let r := (contrastFactor * (r - 128) + 128)%float in
    let g := (contrastFactor * (g - 128) + 128)%float in
    let b := (contrastFactor * (b - 128) + 128)%float in
    let data := <[i := ToUint8Clamp (Math_max 0 (Math_min 255 r))]> data in
    let data := <[i + 1 := ToUint8Clamp (Math_max 0 (Math_min 255 g))]> data in
    <[i + 2 := ToUint8Clamp (Math_max 0 (Math_min 255 b))]> data)
  (step4 (length data)) data.

(** RGB to HSL, as the first half of the loop body of
    [applyHueSaturation]. *)
Definition rgb_to_hsl (r g b : float) : float * float * float :=
  let max := Math_max3 r g b in
  let min := Math_min3 r g b in
  let diff := (max - min)%float in
  let l := ((max + min) / 2)%float in
  if negb (strict_eq diff 0) then
    let s := if (0.5 <? l)%float then (diff / (2 - max - min))%float
             else (diff / (max + min))%float in
    let h :=
      if strict_eq max r then
        ((g - b) / diff + (if (g <? b)%float then 6 else 0))%float
      else if strict_eq max g then ((b - r) / diff + 2)%float
      else if strict_eq max b then ((r - g) / diff + 4)%float
      else 0%float in
    ((h / 6)%float, s, l)
  else (0%float, 0%float, l).

(** The hue after the shift: [(h + hueShift / (2 * Math.PI)) % 1]. *)
Definition shift_hue (h hueShift : float) : float :=
  rem (h + hueShift / (2 * Math_PI))%float 1.

(** HSL to RGB by sector, the second half of the loop body. *)
Definition hsl_to_rgb (h s l : float) : float * float * float :=
  let c := ((1 - Math_abs (2 * l - 1)) * s)%float in
  let x := (c * (1 - Math_abs (rem (h * 6) 2 - 1)))%float in
  let m := (l - c / 2)%float in
  let hSector := Math_floor (h * 6)%float in
  let '(rNew, gNew, bNew) :=
    if strict_eq hSector 0 then (c, x, 0%float)
    else if strict_eq hSector 1 then (x, c, 0%float)
    else if strict_eq hSector 2 then (0%float, c, x)
    else if strict_eq hSector 3 then (0%float, x, c)
    else if strict_eq hSector 4 then (x, 0%float, c)
    else if strict_eq hSector 5 then (c, 0%float, x)
    else (0%float, 0%float, 0%float) in
  (Math_round ((rNew + m) * 255)%float,
   Math_round ((gNew + m) * 255)%float,
   Math_round ((bNew + m) * 255)%float).

Definition applyHueSaturation (data : list byte) (hue saturation : float)
    : list byte :=
  let hueShift := (hue / 180 * Math_PI)%float in
  let satFactor := (1 + saturation / 100)%float in
  fold_left (λ data i,
    let r := (rd data i / 255)%float in
    let g := (rd data (i + 1) / 255)%float in
    let b := (rd data (i + 2) / 255)%float in
    let '(h, s, l) := rgb_to_hsl r g b in
    let h := shift_hue h hueShift in
    let s := Math_max 0 (Math_min 1 (s * satFactor)%float) in
    let '(r', g', b') := hsl_to_rgb h s l in
    let data := <[i := ToUint8Clamp r']> data in
    let data := <[i + 1 := ToUint8Clamp g']> data in
    <[i + 2 := ToUint8Clamp b']> data)
  (step4 (length data)) data.

(** An element of a Number array ([undefined] enters arithmetic as
    [NaN]). *)
Definition elem (a : list float) (i : nat) : float := default nan (a !! i).

(** [generateGaussianKernel]; [None] is the RangeError of [new Array(size)]
    for a size that is not an array length. *)
Definition generateGaussianKernel (radius : float) : option (list float) :=
  let size := (Math_ceil radius * 2 + 1)%float in
  n ← to_index size;
  let sigma := (radius / 3)%float in
  let twoSigmaSquare := (2 * sigma * sigma)%float in
  let center := Math_floor (size / 2)%float in
  let kernel :=
    map (λ i, let x := (of_nat i - center)%float in
              Math_exp (- (x * x) / twoSigmaSquare)%float) (seq 0 n) in
  let sum := fold_left (λ sum k, (sum + k)%float) kernel 0%float in
  Some (map (λ k, (k / sum)%float) kernel).

(** One tap of the blur: the accumulators [r, g, b, a, totalWeight]. *)
Definition blur_tap (data : list byte) (w h : nat) (gaussianKernel : list float)
    (half x y : nat) (acc : float * float * float * float * float)
    (k : Z * Z) : float * float * float * float * float :=
  let '(r, g, b, a, totalWeight) := acc in
  let '(kx, ky) := k in
  let px := clamp_coord w (Z.of_nat x + kx) in
  let py := clamp_coord h (Z.of_nat y + ky) in
  let idx := (py * w + px) * 4 in
  let weight :=
    (elem gaussianKernel (Z.to_nat (ky + Z.of_nat half)) *
     elem gaussianKernel (Z.to_nat (kx + Z.of_nat half)))%float in
  ((r + rd data idx * weight)%float,
   (g + rd data (idx + 1) * weight)%float,
   (b + rd data (idx + 2) * weight)%float,
   (a + rd data (idx + 3) * weight)%float,
   (totalWeight + weight)%float).

Definition applyBlur (imageData : ImageData) (radius : float)
    : option ImageData :=
  let data := data imageData in
  let w := width imageData in
  let h := height imageData in
  let output := new_Uint8ClampedArray (length data) in
  gaussianKernel ← generateGaussianKernel radius;
  let kernelSize := length gaussianKernel in
  let half := kernelSize / 2 in
  let output :=
    scan w h (λ x y,
      let '(r, g, b, a, totalWeight) :=
        fold_left (blur_tap data w h gaussianKernel half x y)
                  (window (offsets half))
                  (0, 0, 0, 0, 0)%float in
      ((r / totalWeight)%float, (g / totalWeight)%float,
       (b / totalWeight)%float, (a / totalWeight)%float)) output in
  ImageData_new output w h.

(** One tap of a convolution: the accumulators [r, g, b]. *)
Definition conv_tap (data : list byte) (w h : nat) (kernel : list float)
    (kernelSize half x y : nat) (acc : float * float * float)
    (k : nat * nat) : float * float * float :=
  let '(r, g, b) := acc in
  let '(kx, ky) := k in
  let px := clamp_coord w (Z.of_nat x + Z.of_nat kx - Z.of_nat half) in
  let py := clamp_coord h (Z.of_nat y + Z.of_nat ky - Z.of_nat half) in
  let idx := (py * w + px) * 4 in
  let weight := elem kernel (ky * kernelSize + kx) in
  ((r + rd data idx * weight)%float,
   (g + rd data (idx + 1) * weight)%float,
   (b + rd data (idx + 2) * weight)%float).

Definition applyConvolution (imageData : ImageData) (kernel : list float)
    (kernelSize : nat) : option ImageData :=
  let data := data imageData in
  let w := width imageData in
  let h := height imageData in
  let output := new_Uint8ClampedArray (length data) in
  let half := kernelSize / 2 in
  let output :=
    scan w h (λ x y,
      let '(r, g, b) :=
        fold_left (conv_tap data w h kernel kernelSize half x y)
                  (window (seq 0 kernelSize))
                  (0, 0, 0)%float in
      let outputIdx := (y * w + x) * 4 in
      (Math_max 0 (Math_min 255 r),
       Math_max 0 (Math_min 255 g),
       Math_max 0 (Math_min 255 b),
       rd data (outputIdx + 3))) output in
  ImageData_new output w h.

Definition applySharpenFilter (imageData : ImageData) : option ImageData :=
  let kernel := [0; -1; 0; -1; 5; -1; 0; -1; 0]%float in
  applyConvolution imageData kernel 3.

Definition applyEmbossFilter (imageData : ImageData) : option ImageData :=
  let kernel := [-2; -1; 0; -1; 1; 1; 0; 1; 2]%float in
  applyConvolution imageData kernel 3.

Definition applyEdgeDetectFilter (imageData : ImageData) : option ImageData :=
  let kernel := [0; 1; 0; 1; -4; 1; 0; 1; 0]%float in
  applyConvolution imageData kernel 3.

(** The iteration at index [i] makes the call number [i / 4] of
    [Math.random]. *)
Definition applyNoiseFilter (data : list byte) (amount : float)
    (uniform : bool) : list byte :=
  let intensity := (amount / 100 * 255)%float in
  fold_left (λ data i,
    let noise :=
      if uniform then ((Math_random (i / 4) - 0.5) * intensity * 2)%float
      else ((Math_random (i / 4) * 2 - 1) * intensity)%float in
    let data :=
      <[i := ToUint8Clamp (Math_max 0 (Math_min 255 (rd data i + noise)%float))]>
        data in
    let data :=
      <[i + 1 :=
          ToUint8Clamp (Math_max 0 (Math_min 255 (rd data (i + 1) + noise)%float))]>
        data in
    <[i + 2 :=
        ToUint8Clamp (Math_max 0 (Math_min 255 (rd data (i + 2) + noise)%float))]>
      data)
  (step4 (length data)) data.

(** [applySepia], [applyGrayscale] and [applyInvert] on the array they are
    given (without one they fetch the active layer's and call themselves
    on it). *)
Definition applySepia (data : list byte) : list byte :=
  fold_left (λ data i,
    let r := rd data i in
    let g := rd data (i + 1) in
    let b := rd data (i + 2) in
    let data :=
      <[i := ToUint8Clamp (Math_min 255 (r * 0.393 + g * 0.769 + b * 0.189)%float)]>
        data in
    let data :=
      <[i + 1 :=
          ToUint8Clamp (Math_min 255 (r * 0.349 + g * 0.686 + b * 0.168)%float)]>
        data in
    <[i + 2 :=
        ToUint8Clamp (Math_min 255 (r * 0.272 + g * 0.534 + b * 0.131)%float)]>
      data)
  (step4 (length data)) data.

(** The body of the loop of [applyGrayscale]. *)
Definition grayscale_step (data : list byte) (i : nat) : list byte :=
  let gray :=
    (rd data i * 0.299 + rd data (i + 1) * 0.587 + rd data (i + 2) * 0.114)%float in
  let data := <[i := ToUint8Clamp gray]> data in
  let data := <[i + 1 := ToUint8Clamp gray]> data in
  <[i + 2 := ToUint8Clamp gray]> data.

Definition applyGrayscale (data : list byte) : list byte :=
  fold_left grayscale_step (step4 (length data)) data.

Definition applyInvert (data : list byte) : list byte :=
  fold_left (λ data i,
    let data := <[i := ToUint8Clamp (255 - rd data i)%float]> data in
    let data := <[i + 1 := ToUint8Clamp (255 - rd data (i + 1))%float]> data in
    <[i + 2 := ToUint8Clamp (255 - rd data (i + 2))%float]> data)
  (step4 (length data)) data.

(** *** Oil painting *)

(** The four arrays of one destination pixel. The counts are integers
    that only [++] touches; the sums are Numbers. *)
Record Buckets := mkBuckets {
  intensityCount : list nat;
  avgR : list float;
  avgG : list float;
  avgB : list float
}.

(** [(r + g + b) / 3 * (intensityLevels - 1) / 255], floored. *)
Definition oil_intensity (intensityLevels : nat) (r g b : float) : float :=
  Math_floor ((r + g + b) / 3 * (of_nat intensityLevels - 1) / 255)%float.

(** [a[i] += v] on an array of Numbers, [a[i]++] on the counts. An index
    that is no element of the array creates a property that the rest of
    the function never reads: the arrays are read at indices below
    [intensityLevels] only. *)
Definition add_at (a : list float) (i : nat) (v : float) : list float :=
  match a !! i with Some s => <[i := (s + v)%float]> a | None => a end.

Definition incr_at (a : list nat) (i : nat) : list nat :=
  match a !! i with Some c => <[i := S c]> a | None => a end.

Definition oil_sample (data : list byte) (w h intensityLevels x y : nat)
    (bk : Buckets) (k : Z * Z) : Buckets :=
  let '(kx, ky) := k in
  let px := clamp_coord w (Z.of_nat x + kx) in
  let py := clamp_coord h (Z.of_nat y + ky) in
  let idx := (py * w + px) * 4 in
  let r := rd data idx in
  let g := rd data (idx + 1) in
  let b := rd data (idx + 2) in
  match to_index (oil_intensity intensityLevels r g b) with
  | Some intensity =>
      mkBuckets (incr_at (intensityCount bk) intensity)
                (add_at (avgR bk) intensity r)
                (add_at (avgG bk) intensity g)
                (add_at (avgB bk) intensity b)
  | None => bk
  end.

(** The arrays after the window of the pixel [(x, y)] is read. *)
Definition oil_buckets (data : list byte) (w h radius intensityLevels x y : nat)
    : Buckets :=
  fold_left (oil_sample data w h intensityLevels x y)
            (window (offsets radius))
            (mkBuckets (replicate intensityLevels 0)
                       (replicate intensityLevels 0%float)
                       (replicate intensityLevels 0%float)
                       (replicate intensityLevels 0%float)).

(** [intensityCount[i]] for [i] below [intensityLevels]. *)
Definition count_at (counts : list nat) (i : nat) : nat :=
  default 0 (counts !! i).

(** The index of the fullest bucket, the first one among equals. *)
Definition oil_maxIndex (intensityLevels : nat) (counts : list nat) : nat :=
  fold_left (λ maxIndex i,
               if count_at counts maxIndex <? count_at counts i
               then i else maxIndex)
            (seq 1 (intensityLevels - 1)) 0.

(** The divisor of the three output channels ([undefined] when there is
    no bucket at all). *)
Definition oil_divisor (counts : list nat) (maxIndex : nat) : float :=
  match counts !! maxIndex with Some c => of_nat c | None => nan end.

Definition applyOilPaintingFilter (imageData : ImageData)
    (radius intensityLevels : nat) : option ImageData :=
  let data := data imageData in
  let w := width imageData in
  let h := height imageData in
  let output := new_Uint8ClampedArray (length data) in
  let output :=
    scan w h (λ x y,
      let bk := oil_buckets data w h radius intensityLevels x y in
      let maxIndex := oil_maxIndex intensityLevels (intensityCount bk) in
      let outputIdx := (y * w + x) * 4 in
      let count := oil_divisor (intensityCount bk) maxIndex in
      ((elem (avgR bk) maxIndex / count)%float,
       (elem (avgG bk) maxIndex / count)%float,
       (elem (avgB bk) maxIndex / count)%float,
       rd data (outputIdx + 3))) output in
  ImageData_new output w h.

(** *** Dispatch *)

(** The values of [FilterOptions] that the dialogs produce: the Number of
    a range input and the Boolean of a checkbox. A missing key is
    [undefined]. *)
Inductive value := VNum (x : float) | VBool (b : bool).

Definition ToBoolean (v : value) : bool :=
  match v with
  | VNum x => negb (is_nan x || is_zero x)
  | VBool b => b
  end.

Definition ToNumber (v : value) : float :=
  match v with
  | VNum x => x
  | VBool true => 1%float
  | VBool false => 0%float
  end.

(** [o || d]. *)
Definition or_else (o : option value) (d : value) : value :=
  match o with
  | Some v => if ToBoolean v then v else d
  | None => d
  end.

(** The [case] labels of [processImageData]. *)
Definition dispatched : list string :=
  ["brightness"; "saturation"; "blur"; "sharpen"; "noise"; "sepia";
   "grayscale"; "invert"; "emboss"; "edge-detect"].

Definition processImageData (imageData : ImageData) (filterType : string)
    (options : gmap string value) : option ImageData :=
  let data := data imageData in
  let w := width imageData in
  let h := height imageData in
  if String.eqb filterType "brightness" then
    ImageData_new
      (applyBrightnessContrast data
         (ToNumber (or_else (options !! "brightness") (VNum 0)))
         (ToNumber (or_else (options !! "contrast") (VNum 0)))) w h
  else if String.eqb filterType "saturation" then
    ImageData_new
      (applyHueSaturation data
         (ToNumber (or_else (options !! "hue") (VNum 0)))
         (ToNumber (or_else (options !! "saturation") (VNum 0)))) w h
  else if String.eqb filterType "blur" then
    applyBlur imageData (ToNumber (or_else (options !! "blur") (VNum 5)))
  else if String.eqb filterType "sharpen" then applySharpenFilter imageData
  else if String.eqb filterType "noise" then
    ImageData_new
      (applyNoiseFilter data
         (ToNumber (or_else (options !! "amount") (VNum 25)))
         (ToBoolean (or_else (options !! "uniform") (VBool false)))) w h
  else if String.eqb filterType "sepia" then
    ImageData_new (applySepia data) w h
  else if String.eqb filterType "grayscale" then
    ImageData_new (applyGrayscale data) w h
  else if String.eqb filterType "invert" then
    ImageData_new (applyInvert data) w h
  else if String.eqb filterType "emboss" then applyEmbossFilter imageData
  else if String.eqb filterType "edge-detect" then
    applyEdgeDetectFilter imageData
  else ImageData_new data w h.

End Filters.

(** ** Layers and documents *)

(** A canvas: its bitmap, and the drawing state of its 2D context that
    this code sets. *)
Record Canvas := mkCanvas {
  canvas_width : nat;
  canvas_height : nat;
  bitmap : list byte;
  globalAlpha : float;
  globalCompositeOperation : string
}.

Record Layer := mkLayer {
  id : string;
  name : string;
  canvas : Canvas;
  visible : bool;
  opacity : float;
  blendMode : string;
  locked : bool;
  isBackground : bool;
  layer_x : float;
  layer_y : float
}.

Record Document := mkDocument {
  doc_id : string;
  doc_name : string;
  doc_width : nat;
  doc_height : nat;
  resolution : float;
  background : string;
  layers : list Layer;
  activeLayerIndex : Z;
  saved : bool
}.

Section Canvas2D.

(** The host's 2D canvas: which compositing operators it knows, and what
    [drawImage(source, dx, dy)] leaves in the bitmap of the canvas drawn
    on, under its current drawing state. *)
Variable supported : string → bool.
Variable drawImage : Canvas → Canvas → float → float → list byte.

(** A fresh canvas: transparent black, default drawing state. The host is
    taken to grant the 2D context ([new Layer] throws when it does not). *)
Definition createCanvas (w h : nat) : Canvas :=
  mkCanvas w h (replicate (w * h * 4) x00) 1%float "source-over".

(** The setters of the context: a value out of range or unknown is
    ignored. *)
Definition set_globalAlpha (c : Canvas) (v : float) : Canvas :=
  if ((0 <=? v) && (v <=? 1))%float
  then mkCanvas (canvas_width c) (canvas_height c) (bitmap c) v
                (globalCompositeOperation c)
  else c.

Definition set_globalCompositeOperation (c : Canvas) (v : string) : Canvas :=
  if supported v
  then mkCanvas (canvas_width c) (canvas_height c) (bitmap c) (globalAlpha c) v
  else c.

Definition ctx_drawImage (c src : Canvas) (dx dy : float) : Canvas :=
  mkCanvas (canvas_width c) (canvas_height c) (drawImage c src dx dy)
           (globalAlpha c) (globalCompositeOperation c).

(** [new Layer({name, width, height, isBackground})]; [layerId] is the
    string that [generateId] makes of the clock and [Math.random]. *)
Definition new_Layer (layerId name : string) (w h : nat)
    (isBackground : option bool) : Layer :=
  mkLayer layerId name (createCanvas w h) true 100%float "normal" false
          (default false isBackground) 0%float 0%float.

Definition with_canvas (l : Layer) (c : Canvas) : Layer :=
  mkLayer (id l) (name l) c (visible l) (opacity l) (blendMode l) (locked l)
          (isBackground l) (layer_x l) (layer_y l).

(** [Layer.mergeWith]. *)
Definition mergeWith (this otherLayer : Layer) : Layer :=
  let c := set_globalAlpha (canvas this) (opacity otherLayer / 100)%float in
  let c := set_globalCompositeOperation c (blendMode otherLayer) in
  let c := ctx_drawImage c (canvas otherLayer)
                         (layer_x otherLayer) (layer_y otherLayer) in
  let c := set_globalAlpha c 1%float in
  let c := set_globalCompositeOperation c "source-over" in
  with_canvas this c.

(** [layers.findIndex(layer => layer.id === layerId)]: -1 when there is
    none. *)
Fixpoint findIndex (layerId : string) (ls : list Layer) : Z :=
  match ls with
  | [] => (-1)%Z
  | l :: ls' =>
      if String.eqb (id l) layerId then 0%Z
      else
        let i := findIndex layerId ls' in
        if (i <? 0)%Z then (-1)%Z else (i + 1)%Z
  end.

Definition set_layers (doc : Document) (ls : list Layer) (active : Z)
    : Document :=
  mkDocument (doc_id doc) (doc_name doc) (doc_width doc) (doc_height doc)
             (resolution doc) (background doc) ls active false.

(** [Document.mergeDown]. *)
Definition mergeDown (doc : Document) (layerId : string) : Document :=
  let layerIndex := findIndex layerId (layers doc) in
  if (0 <? layerIndex)%Z then
    let i := Z.to_nat layerIndex in
    match layers doc !! i, layers doc !! (i - 1) with
    | Some topLayer, Some bottomLayer =>
        let ls := <[i - 1 := mergeWith bottomLayer topLayer]> (layers doc) in
        set_layers doc (delete i ls) (layerIndex - 1)
    | _, _ => doc
    end
  else doc.

(** [Document.flattenImage]; [layerId] is the id generated for the new
    layer. *)
Definition flattenImage (layerId : string) (doc : Document) : Document :=
  if length (layers doc) <=? 1 then doc
  else
    let flattenedLayer :=
      new_Layer layerId "Flattened" (doc_width doc) (doc_height doc) None in
    let ctx :=
      fold_left (λ ctx layer,
        if visible layer then
          let ctx := set_globalAlpha ctx (opacity layer / 100)%float in
          let ctx := set_globalCompositeOperation ctx (blendMode layer) in
          ctx_drawImage ctx (canvas layer) 0%float 0%float
        else ctx)
      (layers doc) (canvas flattenedLayer) in
    set_layers doc [with_canvas flattenedLayer ctx] 0.

End Canvas2D.

(** ** Definitions used by the statements and the proofs *)

(** A sample given by its value. *)
Definition u8 (n : Z) : byte := byte_of_Z n.

(** A host for the examples: a [Math.exp] that sums forty terms of the
    series, a [Math.random] that alternates between two values, and a
    canvas that knows the operators of the blend-mode menu and whose
    [drawImage] replaces the bitmap by the source's. *)
Definition exp_series (x : float) : float :=
  fst (fold_left (λ '(s, t) k, ((s + t)%float, (t * x / of_nat (S k))%float))
                 (seq 0 40) (0%float, 1%float)).

Definition random_alternating (n : nat) : float :=
  if Nat.even n then 0.25%float else 0.75%float.

Definition supported_basic (op : string) : bool :=
  bool_decide (op ∈ ["source-over"; "multiply"; "screen"; "overlay";
                     "darken"; "lighten"; "difference"]).

Definition drawImage_copy (c src : Canvas) (dx dy : float) : list byte :=
  bitmap src.

(** The 2 x 2 image of the grayscale scenario: red, green, blue, white. *)
Definition rgbw : ImageData :=
  mkImageData
    [u8 255; u8 0; u8 0; u8 255;  u8 0; u8 255; u8 0; u8 255;
     u8 0; u8 0; u8 255; u8 255;  u8 255; u8 255; u8 255; u8 255] 2 2.

(** A document of three layers. *)
Definition three_layers : Document :=
  mkDocument "doc_1" "Untitled" 1 1 72%float "#ffffff"
    [new_Layer "layer_a" "Background" 1 1 (Some true);
     new_Layer "layer_b" "Layer 1" 1 1 None;
     new_Layer "layer_c" "Layer 2" 1 1 None]
    2 true.

(** The value that a scan stores in channel [c] of a pixel. *)
Definition channel (c : nat) (v : float * float * float * float) : float :=
  let '(r, g, b, a) := v in
  match c with 0 => r | 1 => g | 2 => b | _ => a end.

(** The loop of [applyGrayscale] reads and writes one block of four
    samples per iteration, so it acts on the blocks independently:
    [gray_pixels] is its effect block by block. *)
Definition gray (r g b : byte) : byte :=
  ToUint8Clamp (of_byte r * 0.299 + of_byte g * 0.587 + of_byte b * 0.114)%float.

Fixpoint gray_pixels (d : list byte) : list byte :=
  match d with
  | r :: g :: b :: a :: rest =>
      gray r g b :: gray r g b :: gray r g b :: a :: gray_pixels rest
  | _ => grayscale_step d 0
  end.

(** A hue that is a fraction of the colour wheel. *)
Definition in_unit_interval (h : float) : bool :=
  ((0 <=? h) && (h <? 1))%float.

(** The checks that are run over a whole range of integers. *)
Definition contrast_ok (c : Z) : bool :=
  ((0 <? contrast_divisor (of_Z c)) && is_finite (contrastFactor (of_Z c)))%float.

Definition add_exact (a b : Z) : bool :=
  Leibniz.eqb (of_Z a + of_Z b)%float (of_Z (a + b)).

Definition bucket_ok (s : Z) : bool :=
  match to_index (Math_floor (of_Z s / 3 * (of_nat 55 - 1) / 255)%float) with
  | Some n => n <? 55
  | None => false
  end.

Definition count_positive (c : Z) : bool := (1 <=? of_Z c)%float.

(** ** More of the filter bank *)

(** The bodies of the in-place loops of [applyInvert] and
    [applyBrightnessContrast], named. *)
Definition invert_step (data : list byte) (i : nat) : list byte :=
  let data := <[i := ToUint8Clamp (255 - rd data i)%float]> data in
  let data := <[i + 1 := ToUint8Clamp (255 - rd data (i + 1))%float]> data in
  <[i + 2 := ToUint8Clamp (255 - rd data (i + 2))%float]> data.

Definition brightness_contrast_step (brightness contrast : float)
    (data : list byte) (i : nat) : list byte :=
  let brightnessFactor := (brightness / 100)%float in
  let contrastFactor := contrastFactor contrast in
  let r := (rd data i + brightnessFactor * 255)%float in
  let g := (rd data (i + 1) + brightnessFactor * 255)%float in
  let b := (rd data (i + 2) + brightnessFactor * 255)%float in
  let r := (contrastFactor * (r - 128) + 128)%float in
  let g := (contrastFactor * (g - 128) + 128)%float in
  let b := (contrastFactor * (b - 128) + 128)%float in
  let data := <[i := ToUint8Clamp (Math_max 0 (Math_min 255 r))]> data in
  let data := <[i + 1 := ToUint8Clamp (Math_max 0 (Math_min 255 g))]> data in
  <[i + 2 := ToUint8Clamp (Math_max 0 (Math_min 255 b))]> data.

(** *** Median *)

(** [values.sort((a, b) => a - b)] on samples: ascending by value. Samples
    of equal value are equal, so every sorting algorithm returns this
    list. An [undefined] (a read out of range) is placed last by [sort]. *)
Fixpoint insert_sorted (b : byte) (l : list byte) : list byte :=
  match l with
  | [] => [b]
  | c :: l' =>
      if (Byte.to_N b <=? Byte.to_N c)%N then b :: l
      else c :: insert_sorted b l'
  end.

Definition sort_numeric (values : list (option byte)) : list (option byte) :=
  map Some (foldr insert_sorted [] (omap (λ v, v) values))
  ++ filter (λ v, v = None) values.

(** The three lists of samples pushed while the window of [(x, y)] is
    read. *)
Definition median_values (data : list byte) (w h half x y : nat) (c : nat)
    : list (option byte) :=
  map (λ '(kx, ky),
         let px := clamp_coord w (Z.of_nat x + kx) in
         let py := clamp_coord h (Z.of_nat y + ky) in
         let idx := (py * w + px) * 4 in
         data !! (idx + c))
      (window (offsets half)).

(** [values[median]] as it is stored. *)
Definition sample_at (values : list (option byte)) (i : nat) : float :=
  match values !! i with Some (Some b) => of_byte b | _ => nan end.

Definition applyMedianFilter (imageData : ImageData) (kernelSize : nat)
    : option ImageData :=
  let data := data imageData in
  let w := width imageData in
  let h := height imageData in
  let output := new_Uint8ClampedArray (length data) in
  let half := kernelSize / 2 in
  let output :=
    scan w h (λ x y,
      let rValues := sort_numeric (median_values data w h half x y 0) in
      let gValues := sort_numeric (median_values data w h half x y 1) in
      let bValues := sort_numeric (median_values data w h half x y 2) in
      let median := length rValues / 2 in
      let outputIdx := (y * w + x) * 4 in
      (sample_at rValues median, sample_at gValues median,
       sample_at bValues median, rd data (outputIdx + 3))) output in
  ImageData_new output w h.

(** *** The filters of the artistic menu, from the pixels they read from
    the active layer to the pixels they put back *)

Definition applyDustAndScratches (imageData : ImageData) : option ImageData :=
  applyMedianFilter imageData 3.

Definition applyOilPainting (imageData : ImageData) : option ImageData :=
  applyOilPaintingFilter imageData 7 55.

(** [applySketch]: grayscale in place, edge detection into a new image,
    invert in place on that image. *)
Definition applySketch (imageData : ImageData) : option ImageData :=
  let imageData :=
    mkImageData (applyGrayscale (data imageData))
                (width imageData) (height imageData) in
  edgeData ← applyEdgeDetectFilter imageData;
  Some (mkImageData (applyInvert (data edgeData))
                    (width edgeData) (height edgeData)).

(** ** More of [Layer], [Document] and their callers *)

Section DocumentOperations.

Variable supported : string → bool.
Variable drawImage : Canvas → Canvas → float → float → list byte.

(** [Layer.setOpacity]. *)
Definition setOpacity (l : Layer) (v : float) : Layer :=
  mkLayer (id l) (name l) (canvas l) (visible l)
          (Math_max 0 (Math_min 100 v)) (blendMode l) (locked l)
          (isBackground l) (layer_x l) (layer_y l).

(** [Layer.duplicate]; [layerId] is the id generated for the copy. *)
Definition duplicate (layerId : string) (this : Layer) : Layer :=
  let duplicated :=
    new_Layer layerId (name this +:+ " copy")
              (canvas_width (canvas this)) (canvas_height (canvas this))
              None in
  mkLayer (id duplicated) (name duplicated)
          (ctx_drawImage drawImage (canvas duplicated) (canvas this)
                         0%float 0%float)
          (visible this) (opacity this) (blendMode this) (locked this)
          (isBackground duplicated) (layer_x this) (layer_y this).

(** [Document.addLayer]. *)
Definition addLayer (doc : Document) (layer : Layer) : Document :=
  let ls := layers doc ++ [layer] in
  set_layers doc ls (Z.of_nat (length ls) - 1).

(** [Document.removeLayer]. *)
Definition removeLayer (doc : Document) (layerId : string) : Document :=
  let index := findIndex layerId (layers doc) in
  if (-1 <? index)%Z then
    match layers doc !! Z.to_nat index with
    | Some layer =>
        if negb (isBackground layer) then
          let ls := delete (Z.to_nat index) (layers doc) in
          let active :=
            if (Z.of_nat (length ls) <=? activeLayerIndex doc)%Z
            then (Z.of_nat (length ls) - 1)%Z
            else activeLayerIndex doc in
          set_layers doc ls active
        else doc
    | None => doc
    end
  else doc.

(** [layers.splice(i, 0, layer)]. *)
Definition splice_in {A} (i : nat) (x : A) (l : list A) : list A :=
  take i l ++ x :: drop i l.

(** [Document.moveLayer]. *)
Definition moveLayer (doc : Document) (layerId : string) (newIndex : Z)
    : Document :=
  let currentIndex := findIndex layerId (layers doc) in
  if (-1 <? currentIndex)%Z && (0 <=? newIndex)%Z
     && (newIndex <? Z.of_nat (length (layers doc)))%Z then
    match layers doc !! Z.to_nat currentIndex with
    | Some layer =>
        let ls := delete (Z.to_nat currentIndex) (layers doc) in
        set_layers doc (splice_in (Z.to_nat newIndex) layer ls) newIndex
    | None => doc
    end
  else doc.

(** [Document.getActiveLayer]: [layers[activeLayerIndex] || null]. *)
Definition getActiveLayer (doc : Document) : option Layer :=
  if (0 <=? activeLayerIndex doc)%Z
  then layers doc !! Z.to_nat (activeLayerIndex doc)
  else None.

(** [Document.setActiveLayer]. *)
Definition setActiveLayer (doc : Document) (layerId : string) : Document :=
  let index := findIndex layerId (layers doc) in
  if (-1 <? index)%Z then
    mkDocument (doc_id doc) (doc_name doc) (doc_width doc) (doc_height doc)
               (resolution doc) (background doc) (layers doc) index (saved doc)
  else doc.

(** [Document.getLayer]: [layers.find(...) || null]. *)
Definition getLayer (doc : Document) (layerId : string) : option Layer :=
  List.find (λ layer, String.eqb (id layer) layerId) (layers doc).

(** [Document.duplicateLayer]: the document afterwards and the value
    returned. *)
Definition duplicateLayer (newId : string) (doc : Document)
    (layerId : string) : Document * option Layer :=
  match getLayer doc layerId with
  | Some layer =>
      let d := duplicate newId layer in
      let duplicatedLayer :=
        mkLayer (id d) (name layer +:+ " copy") (canvas d) (visible d)
                (opacity d) (blendMode d) (locked d) (isBackground d)
                (layer_x d) (layer_y d) in
      (addLayer doc duplicatedLayer, Some duplicatedLayer)
  | None => (doc, None)
  end.

(** [PixelForge.deleteActiveLayer] on the active document; [confirmed] is
    the answer to the question asked for a background layer; [None] is the
    TypeError of reading [isBackground] of no layer. *)
Definition deleteActiveLayer (confirmed : bool) (activeDoc : Document)
    : option Document :=
  if length (layers activeDoc) <=? 1 then Some activeDoc
  else
    match getActiveLayer activeDoc with
    | Some activeLayer =>
        if isBackground activeLayer && negb confirmed then Some activeDoc
        else Some (removeLayer activeDoc (id activeLayer))
    | None => None
    end.

End DocumentOperations.

(** ** Recent files *)

(** [FileManager.addToRecentFiles], on the list it keeps
    ([maxRecentFiles] is 10). *)
Definition maxRecentFiles : nat := 10.

Definition addToRecentFiles (recentFiles : list string) (filePath : string)
    : list string :=
  take maxRecentFiles
       (filePath :: List.filter (λ path, negb (String.eqb path filePath))
                                recentFiles).

(** ** The history of states *)

(** A snapshot of the active document. *)
Record HistoryState := mkHistoryState {
  hs_id : string;
  hs_name : string;
  hs_timestamp : float;
  hs_layers : list Layer;
  hs_activeLayerIndex : Z;
  hs_canvasWidth : nat;
  hs_canvasHeight : nat
}.

(** The fields of [HistoryManager]; the sizes it is given are integers. *)
Record HistoryManager := mkHistoryManager {
  history : list HistoryState;
  currentIndex : Z;
  maxHistorySize : Z;
  isRecording : bool
}.

(** [new HistoryManager(eventBus)]. *)
Definition new_HistoryManager : HistoryManager :=
  mkHistoryManager [] (-1) 50 true.

(** [a.slice(0, e)]: a negative [e] counts from the end. *)
Definition slice_to {A} (l : list A) (e : Z) : list A :=
  if (e <? 0)%Z then take (Z.to_nat (Z.of_nat (length l) + e)) l
  else take (Z.to_nat e) l.

(** [HistoryManager.addState]; [state] is the snapshot built from the
    active document, [None] when there is no active document. *)
Definition addState (hm : HistoryManager) (state : option HistoryState)
    : HistoryManager :=
  if negb (isRecording hm) then hm
  else
    match state with
    | None => hm
    | Some state =>
        let h := slice_to (history hm) (currentIndex hm + 1) ++ [state] in
        let i := (Z.of_nat (length h) - 1)%Z in
        if (maxHistorySize hm <? Z.of_nat (length h))%Z
        then mkHistoryManager (drop 1 h) (i - 1) (maxHistorySize hm)
                              (isRecording hm)
        else mkHistoryManager h i (maxHistorySize hm) (isRecording hm)
    end.

Definition canUndo (hm : HistoryManager) : bool := (0 <? currentIndex hm)%Z.

Definition canRedo (hm : HistoryManager) : bool :=
  (currentIndex hm <? Z.of_nat (length (history hm)) - 1)%Z.

(** [history[i]]. *)
Definition state_at (hm : HistoryManager) (i : Z) : option HistoryState :=
  if (0 <=? i)%Z then history hm !! Z.to_nat i else None.

(** [restoreState(history[i])] after the index is moved to [i]: the
    manager, which stops recording until its timer fires, and the state
    sent to the document; [None] is the TypeError of restoring no
    state. *)
Definition restore_at (hm : HistoryManager) (i : Z)
    : option (HistoryManager * HistoryState) :=
  match state_at hm i with
  | Some state =>
      Some (mkHistoryManager (history hm) i (maxHistorySize hm) false, state)
  | None => None
  end.

(** [undo] and [redo]: [Some (hm, None)] when there is nothing to do. *)
Definition undo (hm : HistoryManager)
    : option (HistoryManager * option HistoryState) :=
  if negb (canUndo hm) then Some (hm, None)
  else
    match restore_at hm (currentIndex hm - 1) with
    | Some (hm', state) => Some (hm', Some state)
    | None => None
    end.

Definition redo (hm : HistoryManager)
    : option (HistoryManager * option HistoryState) :=
  if negb (canRedo hm) then Some (hm, None)
  else
    match restore_at hm (currentIndex hm + 1) with
    | Some (hm', state) => Some (hm', Some state)
    | None => None
    end.

(** The callback of the timer started by [restoreState]. *)
Definition resumeRecording (hm : HistoryManager) : HistoryManager :=
  mkHistoryManager (history hm) (currentIndex hm) (maxHistorySize hm) true.

(** The loop of [setMaxHistorySize]:
    [while (history.length > max) { history.shift(); currentIndex--; }]. *)
Fixpoint trim_history (max : Z) (h : list HistoryState) (i : Z)
    : list HistoryState * Z :=
  match h with
  | [] => (h, i)
  | _ :: h' =>
      if (max <? Z.of_nat (length h))%Z then trim_history max h' (i - 1)
      else (h, i)
  end.

(** [setMaxHistorySize]. *)
Definition setMaxHistorySize (hm : HistoryManager) (size : Z)
    : HistoryManager :=
  let max := Z.max 1 size in
  let '(h, i) := trim_history max (history hm) (currentIndex hm) in
  mkHistoryManager h (Z.max 0 i) max (isRecording hm).

(** ** The vintage effect *)

(** The loop of [applyVintage] on the samples read from the canvas of the
    active layer: sepia tone, then one grain value for each pixel. *)
Definition vintage_step (Math_random : nat → float) (data : list byte)
    (i : nat) : list byte :=
  let r := rd data i in
  let g := rd data (i + 1) in
  let b := rd data (i + 2) in
  let data :=
    <[i := ToUint8Clamp (Math_min 255 (r * 0.393 + g * 0.769 + b * 0.189)%float)]>
      data in
  let data :=
    <[i + 1 :=
        ToUint8Clamp (Math_min 255 (r * 0.349 + g * 0.686 + b * 0.168)%float)]>
      data in
  let data :=
    <[i + 2 :=
        ToUint8Clamp (Math_min 255 (r * 0.272 + g * 0.534 + b * 0.131)%float)]>
      data in
  let grain := ((Math_random (i / 4)%nat - 0.5) * 20)%float in
  let data :=
    <[i := ToUint8Clamp (Math_max 0 (Math_min 255 (rd data i + grain)%float))]>
      data in
  let data :=
    <[i + 1 :=
        ToUint8Clamp (Math_max 0 (Math_min 255 (rd data (i + 1) + grain)%float))]>
      data in
  <[i + 2 :=
      ToUint8Clamp (Math_max 0 (Math_min 255 (rd data (i + 2) + grain)%float))]>
    data.

Definition applyVintage (Math_random : nat → float) (data : list byte)
    : list byte :=
  fold_left (vintage_step Math_random) (step4 (length data)) data.

(** ** Reordering by drag and drop *)

(** [PixelForge.reorderLayers] on the active document. The document is
    not marked as modified. *)
Definition reorderLayers (activeDoc : Document)
    (draggedLayerId targetLayerId : string) : Document :=
  let draggedIndex := findIndex draggedLayerId (layers activeDoc) in
  let targetIndex := findIndex targetLayerId (layers activeDoc) in
  if negb (draggedIndex =? -1)%Z && negb (targetIndex =? -1)%Z
     && negb (draggedIndex =? targetIndex)%Z then
    match layers activeDoc !! Z.to_nat draggedIndex with
    | Some draggedLayer =>
        let ls :=
          splice_in (Z.to_nat targetIndex) draggedLayer
                    (delete (Z.to_nat draggedIndex) (layers activeDoc)) in
        let active := activeLayerIndex activeDoc in
        let active :=
          if (active =? draggedIndex)%Z then targetIndex
          else if (draggedIndex <? active)%Z && (active <=? targetIndex)%Z
          then (active - 1)%Z
          else if (active <? draggedIndex)%Z && (targetIndex <=? active)%Z
          then (active + 1)%Z
          else active in
        mkDocument (doc_id activeDoc) (doc_name activeDoc)
                   (doc_width activeDoc) (doc_height activeDoc)
                   (resolution activeDoc) (background activeDoc) ls active
                   (saved activeDoc)
    | None => activeDoc
    end
  else activeDoc.

(** ** The event bus *)

(** A callback is a function object, compared by identity: a function of
    the caller, known by a number, or the closure that the [k]-th call of
    [once] builds around a function of the caller. *)
Inductive EventCallback :=
  | Listener (f : nat)
  | OnceCallback (k : nat) (f : nat).

Definition EventCallback_eqb (a b : EventCallback) : bool :=
  match a, b with
  | Listener f, Listener g => f =? g
  | OnceCallback k _, OnceCallback k' _ => k =? k'
  | _, _ => false
  end.

(** The map of [EventBus], and the number of closures built so far. *)
Record EventBus := mkEventBus {
  events : gmap string (list EventCallback);
  closures : nat
}.

Definition new_EventBus : EventBus := mkEventBus ∅ 0.

(** [EventBus.on]. *)
Definition on (bus : EventBus) (event : string) (callback : EventCallback)
    : EventBus :=
  let callbacks := default [] (events bus !! event) in
  mkEventBus (<[event := callbacks ++ [callback]]> (events bus))
             (closures bus).

(** [callbacks.indexOf(callback)]. *)
Fixpoint indexOf (callback : EventCallback) (callbacks : list EventCallback)
    : Z :=
  match callbacks with
  | [] => (-1)%Z
  | c :: callbacks' =>
      if EventCallback_eqb c callback then 0%Z
      else
        let i := indexOf callback callbacks' in
        if (i <? 0)%Z then (-1)%Z else (i + 1)%Z
  end.

(** [EventBus.off]: the array of the event is spliced in place. *)
Definition off (bus : EventBus) (event : string) (callback : EventCallback)
    : EventBus :=
  match events bus !! event with
  | Some callbacks =>
      let index := indexOf callback callbacks in
      if (-1 <? index)%Z then
        mkEventBus (<[event := delete (Z.to_nat index) callbacks]> (events bus))
                   (closures bus)
      else bus
  | None => bus
  end.

(** A call of a callback during [emit]: the functions of the caller that
    run, in order, and the bus afterwards. A function of the caller is
    taken not to touch the bus; the closure of [once] calls its function
    and then [off] on itself. *)
Definition call (bus : EventBus) (event : string) (callback : EventCallback)
    : EventBus * list nat :=
  match callback with
  | Listener f => (bus, [f])
  | OnceCallback _ f => (off bus event callback, [f])
  end.

(** [callbacks.forEach(...)] from index [k] with [n] indices to go: the
    length is read once, before the first call, and an index that the
    array no longer has is passed over. *)
Fixpoint forEach (n k : nat) (bus : EventBus) (event : string)
    : EventBus * list nat :=
  match n with
  | 0 => (bus, [])
  | S n' =>
      match events bus !! event ≫= (λ callbacks, callbacks !! k) with
      | Some callback =>
          let '(bus1, called1) := call bus event callback in
          let '(bus2, called2) := forEach n' (S k) bus1 event in
          (bus2, called1 ++ called2)
      | None => forEach n' (S k) bus event
      end
  end.

(** [EventBus.emit]: the bus afterwards and the functions called. *)
Definition emit (bus : EventBus) (event : string) : EventBus * list nat :=
  match events bus !! event with
  | Some callbacks => forEach (length callbacks) 0 bus event
  | None => (bus, [])
  end.

(** [EventBus.once]. *)
Definition once (bus : EventBus) (event : string) (f : nat) : EventBus :=
  on (mkEventBus (events bus) (S (closures bus))) event
     (OnceCallback (closures bus) f).

(** The effect, block by block, of a loop whose body [step] reads and
    writes the four samples at its index only. *)
Fixpoint blocks (step : list byte → nat → list byte) (d : list byte)
    : list byte :=
  match d with
  | r :: g :: b :: a :: rest => step [r; g; b; a] 0 ++ blocks step rest
  | _ => step d 0
  end.

(** The inverse of a sample. *)
Definition inv (b : byte) : byte := ToUint8Clamp (255 - of_byte b)%float.

(** The six in-place filters of the dispatch, with their parameters
    bound. *)
Inductive in_place_filter (Math_random : nat → float)
    : (list byte → list byte) → Prop :=
  | ipf_brightness b c :
      in_place_filter Math_random (λ d, applyBrightnessContrast d b c)
  | ipf_saturation h s :
      in_place_filter Math_random (λ d, applyHueSaturation d h s)
  | ipf_noise a u :
      in_place_filter Math_random (λ d, applyNoiseFilter Math_random d a u)
  | ipf_sepia : in_place_filter Math_random applySepia
  | ipf_grayscale : in_place_filter Math_random applyGrayscale
  | ipf_invert : in_place_filter Math_random applyInvert.

(** The samples of channel [c] read in the window of [(x, y)], and how
    many samples of a list lie below and above a given one. *)
Definition window_samples (data : list byte) (w h half x y c : nat)
    : list byte :=
  omap (λ v, v) (median_values data w h half x y c).

Definition count_below (m : byte) (l : list byte) : nat :=
  length (List.filter (λ v, (Byte.to_N v <? Byte.to_N m)%N) l).

Definition count_above (m : byte) (l : list byte) : nat :=
  length (List.filter (λ v, (Byte.to_N m <? Byte.to_N v)%N) l).

Definition byte_le (a b : byte) : Prop := (Byte.to_N a ≤ Byte.to_N b)%N.

(** An accumulator that is 0 or a sample. *)
Definition settled (a : float) : Prop := a = 0%float ∨ ∃ b, a = of_byte b.

(** The active index points at a layer. *)
Definition valid_active (doc : Document) : Prop :=
  (0 ≤ activeLayerIndex doc < Z.of_nat (length (layers doc)))%Z.

(** The index of the history points at a state, or is -1 when there is
    none, and the history is within its size. *)
Definition valid_history (hm : HistoryManager) : Prop :=
  (-1 ≤ currentIndex hm < Z.of_nat (length (history hm)))%Z
  ∧ (currentIndex hm = -1 → history hm = [])%Z
  ∧ (1 ≤ maxHistorySize hm)%Z
  ∧ (Z.of_nat (length (history hm)) ≤ maxHistorySize hm)%Z.

(** The checks of the kernel size that are run over a range of radii. *)
Definition kernel_size (n : Z) : option nat :=
  to_index (Math_ceil (of_Z n) * 2 + 1)%float.

Definition kernel_size_ok (n : Z) : bool :=
  match kernel_size n with
  | Some m => m =? Z.to_nat (2 * n + 1)
  | None => false
  end.

Definition kernel_size_bad (n : Z) : bool :=
  match kernel_size n with
  | Some m => false
  | None => ToBoolean (VNum (of_Z n))
  end.

(** A history of three states with the second one current. *)
Definition snapshot (stateId stateName : string) : HistoryState :=
  mkHistoryState stateId stateName 0%float (layers three_layers) 2 1 1.

Definition three_states : HistoryManager :=
  mkHistoryManager
    [snapshot "history_1" "New Document"; snapshot "history_2" "Brush Stroke";
     snapshot "history_3" "Apply Filter"]
    1 50 true.

(** What an emit does to the callbacks of its event, by their order: the
    functions that run, and the callbacks that are still registered. The
    callback that follows a closure of [once] is passed over. *)
Fixpoint called (callbacks : list EventCallback) : list nat :=
  match callbacks with
  | [] => []
  | Listener f :: rest => f :: called rest
  | OnceCallback _ f :: rest =>
      f :: match rest with [] => [] | _ :: rest' => called rest' end
  end.

Fixpoint remaining (callbacks : list EventCallback) : list EventCallback :=
  match callbacks with
  | [] => []
  | Listener f :: rest => Listener f :: remaining rest
  | OnceCallback _ _ :: rest =>
      match rest with [] => [] | c :: rest' => c :: remaining rest' end
  end.

(** The closures of [once] among the callbacks, by their numbers. *)
Definition once_closures (callbacks : list EventCallback) : list nat :=
  omap (λ c, match c with OnceCallback k _ => Some k | Listener _ => None end)
       callbacks.

(** A bus with two one-time listeners and a listener of one event. *)
Definition three_callbacks : EventBus :=
  on (once (once new_EventBus "layer:updated" 1) "layer:updated" 2)
     "layer:updated" (Listener 3).

(** A bus with two listeners of one event. *)
Definition two_listeners : EventBus :=
  on (on new_EventBus "layer:added" (Listener 1)) "layer:added" (Listener 2).

(** * Properties *)

(** ** Numbers *)

Lemma add_nan_r (x : float) : (x + nan)%float = nan.
Proof.
  apply Prim2SF_inj. rewrite add_spec.
  change (Prim2SF nan) with S754_nan.
  destruct (Prim2SF x) as [[]|[]| |[]]; reflexivity.
Qed.


Lemma mul_nan_l (x : float) : (nan * x)%float = nan.
Proof.
  apply Prim2SF_inj. rewrite mul_spec.
  change (Prim2SF nan) with S754_nan. reflexivity.
Qed.

Lemma add_nan_l (x : float) : (nan + x)%float = nan.
Proof.
  apply Prim2SF_inj. rewrite add_spec.
  change (Prim2SF nan) with S754_nan. reflexivity.
Qed.

(** A sample read and stored back is unchanged. *)
Lemma ToUint8Clamp_of_byte (b : byte) : ToUint8Clamp (of_byte b) = b.
Proof. destruct b; vm_compute; reflexivity. Qed.

(** A property checked on every integer of a range holds on the range. *)
Lemma Zrange_forallb (P : Z → bool) (lo : Z) (n : nat) :
  forallb P (map (λ k, (lo + Z.of_nat k)%Z) (seq 0 n)) = true →
  ∀ z, (lo ≤ z < lo + Z.of_nat n)%Z → P z = true.
Proof.
  intros H z Hz. rewrite forallb_forall in H. apply H.
  apply in_map_iff. exists (Z.to_nat (z - lo)). split; [lia|].
  apply in_seq. lia.
Qed.

(** ** The scenarios of the specification *)

(** Grayscale of the red, green, blue and white pixels: luma 76, 150, 29
    and 255, alpha unchanged. *)
Example grayscale_scenario :
  applyGrayscale (data rgbw)
  = [u8 76; u8 76; u8 76; u8 255;  u8 150; u8 150; u8 150; u8 255;
     u8 29; u8 29; u8 29; u8 255;  u8 255; u8 255; u8 255; u8 255].
Proof. vm_compute. reflexivity. Qed.

(** Invert of (10, 20, 30, 255). *)
Example invert_scenario :
  applyInvert [u8 10; u8 20; u8 30; u8 255]
  = [u8 245; u8 235; u8 225; u8 255].
Proof. vm_compute. reflexivity. Qed.

(** Brightness 0 and contrast 0 change nothing. *)
Example brightness_contrast_neutral :
  applyBrightnessContrast (data rgbw) 0 0 = data rgbw.
Proof. vm_compute. reflexivity. Qed.

(** Hue 0 and saturation 0 change nothing, and a positive shift of 90
    degrees turns red into the green-yellow (128, 255, 0). *)
Example hue_scenarios :
  applyHueSaturation (data rgbw) 0 0 = data rgbw
  ∧ applyHueSaturation [u8 255; u8 0; u8 0; u8 255] 90 0
    = [u8 128; u8 255; u8 0; u8 255].
Proof. vm_compute. split; reflexivity. Qed.

(** [%] truncates: the sign of the result is the dividend's. *)
Example rem_sign :
  rem 1.25 1 = 0.25%float ∧ rem (-0.25) 1 = (-0.25)%float
  ∧ rem (-5.5) 2 = (-1.5)%float ∧ rem 5.5 2 = 1.5%float.
Proof. vm_compute. repeat split; reflexivity. Qed.

(** Stores round to the nearest integer, ties to even, and clamp. *)
Example ToUint8Clamp_rounding :
  map ToUint8Clamp [0.5; 1.5; 2.5; 254.5; 300; -3; nan; 76.245]%float
  = [u8 0; u8 2; u8 2; u8 254; u8 255; u8 0; u8 0; u8 76].
Proof. vm_compute. reflexivity. Qed.

(** ** Dispatch *)

Lemma ImageData_new_valid (img : ImageData) :
  valid_ImageData img →
  ImageData_new (data img) (width img) (height img) = Some img.
Proof.
  intros (Hw & Hh & Hlen). unfold ImageData_new.
  assert (0 < length (data img)) by nia.
  destruct img as [d w h]. simpl in *.
  rewrite (proj2 (Nat.ltb_lt _ _)) by done.
  rewrite (proj2 (Nat.eqb_eq _ _)) by done.
  reflexivity.
Qed.

Lemma ImageData_new_same_length (img : ImageData) (d : list byte) :
  valid_ImageData img → length d = length (data img) →
  ImageData_new d (width img) (height img)
  = Some (mkImageData d (width img) (height img)).
Proof.
  intros (Hw & Hh & Hlen) Hd. unfold ImageData_new.
  assert (0 < length d) by nia.
  rewrite (proj2 (Nat.ltb_lt _ _)) by done.
  rewrite (proj2 (Nat.eqb_eq _ _)) by lia.
  reflexivity.
Qed.

Section Dispatch.

Variable Math_exp : float → float.
Variable Math_random : nat → float.

(** C4: a [filterType] that is none of the [case] labels leaves the image
    as it is: [processImageData] returns (it does not throw) an
    [ImageData] of the same width and height with the same samples. *)
Theorem processImageData_unknown_type
    (img : ImageData) (filterType : string) (options : gmap string value) :
  valid_ImageData img →
  filterType ∉ dispatched →
  processImageData Math_exp Math_random img filterType options = Some img.
Proof.
  intros Hvalid Hnot. unfold dispatched in Hnot.
  repeat (apply not_elem_of_cons in Hnot as [? Hnot]).
  unfold processImageData.
  repeat (rewrite (proj2 (String.eqb_neq filterType _)) by done).
  by apply ImageData_new_valid.
Qed.

(** C9: an option given as 0 is treated as a missing one. The blur filter
    called with radius 0 blurs with the default radius 5, and the noise
    filter called with amount 0 adds noise with the default amount 25,
    exactly as when the key is absent. *)
Theorem processImageData_zero_is_default
    (img : ImageData) (options : gmap string value) :
  (processImageData Math_exp Math_random img "blur"
     (<["blur" := VNum 0]> options)
   = applyBlur Math_exp img 5
   ∧ processImageData Math_exp Math_random img "blur"
       (<["blur" := VNum 0]> options)
     = processImageData Math_exp Math_random img "blur"
         (delete "blur" options))
  ∧
  (processImageData Math_exp Math_random img "noise"
     (<["amount" := VNum 0]> options)
   = ImageData_new
       (applyNoiseFilter Math_random (data img) 25
          (ToBoolean (or_else (options !! "uniform") (VBool false))))
       (width img) (height img)
   ∧ processImageData Math_exp Math_random img "noise"
       (<["amount" := VNum 0]> options)
     = processImageData Math_exp Math_random img "noise"
         (delete "amount" options)).
Proof.
  unfold processImageData. cbn [String.eqb Ascii.eqb Bool.eqb].
  rewrite !lookup_insert_eq, !lookup_delete_eq.
  rewrite lookup_insert_ne, lookup_delete_ne by done.
  repeat split; reflexivity.
Qed.

End Dispatch.

(** ** Documents *)

Section DocumentProperties.

Variable supported : string → bool.
Variable drawImage : Canvas → Canvas → float → float → list byte.

(** C5: [mergeDown] called with the id of the bottom-most layer changes
    nothing: the document, and so its layers, their bitmaps and
    [activeLayerIndex], is returned as it was. *)
Theorem mergeDown_bottom_layer (doc : Document) (l : Layer) :
  layers doc !! 0 = Some l →
  mergeDown supported drawImage doc (id l) = doc.
Proof.
  intros Hl. unfold mergeDown.
  destruct (layers doc) as [|l0 ls]; [done|].
  injection Hl as ->. simpl.
  by rewrite String.eqb_refl.
Qed.

(** C6: on a document of two or more layers [flattenImage] leaves exactly
    one layer, a new one named "Flattened" that carries the generated id
    (so it is none of the former layers when the id is fresh), and
    [activeLayerIndex] is 0. *)
Theorem flattenImage_one_layer (layerId : string) (doc : Document) :
  2 ≤ length (layers doc) →
  ∃ l, layers (flattenImage supported drawImage layerId doc) = [l]
       ∧ name l = "Flattened"
       ∧ id l = layerId
       ∧ activeLayerIndex (flattenImage supported drawImage layerId doc) = 0%Z
       ∧ ((∀ l', l' ∈ layers doc → id l' ≠ layerId) → l ∉ layers doc).
Proof.
  intros Hlen. unfold flattenImage.
  destruct (Nat.leb_spec (length (layers doc)) 1) as [?|_]; [lia|].
  eexists. split; [reflexivity|]. simpl.
  repeat split. intros Hfresh Hin. by apply (Hfresh _ Hin).
Qed.

End DocumentProperties.

(** ** Scans *)

Lemma in_pixel_coords (w h x y : nat) :
  In (x, y) (pixel_coords w h) ↔ x < w ∧ y < h.
Proof.
  unfold pixel_coords. rewrite in_flat_map. split.
  - intros (y' & Hy & Hin). apply in_map_iff in Hin as (x' & [= <- <-] & Hx).
    apply in_seq in Hy, Hx. lia.
  - intros [Hx Hy]. exists y. split; [apply in_seq; lia|].
    apply in_map_iff. exists x. split; [done|apply in_seq; lia].
Qed.

Lemma length_store4 (out : list byte) (i : nat) v :
  length (store4 out i v) = length out.
Proof.
  destruct v as [[[r g] b] a]. unfold store4. by rewrite !length_insert.
Qed.

Lemma store4_lookup_same (out : list byte) (i c : nat) v :
  c < 4 → i + 3 < length out →
  store4 out i v !! (i + c) = Some (ToUint8Clamp (channel c v)).
Proof.
  intros Hc Hlen. destruct v as [[[r g] b] a]. unfold store4, channel.
  destruct c as [|[|[|[|c]]]]; [..|lia].
  - rewrite Nat.add_0_r.
    rewrite !list_lookup_insert_ne by lia.
    apply list_lookup_insert_eq. lia.
  - rewrite !list_lookup_insert_ne by lia.
    apply list_lookup_insert_eq. rewrite length_insert. lia.
  - rewrite list_lookup_insert_ne by lia.
    apply list_lookup_insert_eq. rewrite !length_insert. lia.
  - apply list_lookup_insert_eq. rewrite !length_insert. lia.
Qed.

Lemma store4_lookup_other (out : list byte) (i k : nat) v :
  k < i ∨ i + 4 ≤ k → store4 out i v !! k = out !! k.
Proof.
  intros Hk. destruct v as [[[r g] b] a]. unfold store4.
  by rewrite !list_lookup_insert_ne by lia.
Qed.

(** Two pixels of a row-major grid have distinct offsets. *)
Lemma pixel_offset_inj (w x y x' y' : nat) :
  x < w → x' < w → y * w + x = y' * w + x' → x = x' ∧ y = y'.
Proof.
  intros Hx Hx' Heq.
  assert (y = y') as -> by nia. lia.
Qed.

Section Scan.

Variables (w : nat) (body : nat → nat → float * float * float * float).

Let step (out : list byte) (p : nat * nat) : list byte :=
  let '(x, y) := p in store4 out ((y * w + x) * 4) (body x y).

Lemma length_scan_fold (l : list (nat * nat)) (out : list byte) :
  length (fold_left step l out) = length out.
Proof.
  revert out. induction l as [|[x y] l IH]; intros out; [done|].
  simpl. rewrite IH. apply length_store4.
Qed.

Lemma scan_fold_lookup (l : list (nat * nat)) (out : list byte) (x y c : nat) :
  (∀ p, In p l → p.1 < w) → In (x, y) l → c < 4 →
  (y * w + x) * 4 + 3 < length out →
  fold_left step l out !! ((y * w + x) * 4 + c)
  = Some (ToUint8Clamp (channel c (body x y))).
Proof.
  intros Hl Hin Hc Hlen. induction l as [|[x' y'] l IH] using rev_ind; [done|].
  rewrite fold_left_app. simpl.
  assert (x < w) as Hx by (apply (Hl (x, y) Hin)).
  assert (x' < w) as Hx'.
  { apply (Hl (x', y')). apply in_or_app. right. by left. }
  destruct (decide ((x', y') = (x, y))) as [[= -> ->]|Hne].
  - apply store4_lookup_same; [done|]. by rewrite length_scan_fold.
  - rewrite store4_lookup_other.
    + apply IH.
      * intros p Hp. apply Hl. apply in_or_app. by left.
      * apply in_app_or in Hin as [Hin|[Hin|[]]]; [done|congruence].
    + assert (y * w + x ≠ y' * w + x') as Hoff.
      { intros Heq. destruct (pixel_offset_inj w x y x' y' Hx Hx' Heq).
        congruence. }
      lia.
Qed.


End Scan.

Lemma length_scan (w h : nat) body (out : list byte) :
  length (scan w h body out) = length out.
Proof. apply length_scan_fold. Qed.

Lemma scan_lookup (w h : nat) body (out : list byte) (x y c : nat) :
  x < w → y < h → c < 4 → w * h * 4 ≤ length out →
  scan w h body out !! ((y * w + x) * 4 + c)
  = Some (ToUint8Clamp (channel c (body x y))).
Proof.
  intros Hx Hy Hc Hlen. apply scan_fold_lookup; [| |done|].
  - intros [x' y'] Hp. apply in_pixel_coords in Hp. simpl. lia.
  - by apply in_pixel_coords.
  - nia.
Qed.

(** ** Convolutions *)

Lemma rd_lookup (d : list byte) (i : nat) (b : byte) :
  d !! i = Some b → ToUint8Clamp (rd d i) = b.
Proof. intros H. unfold rd. rewrite H. apply ToUint8Clamp_of_byte. Qed.

(** A convolution, whatever its kernel, returns an image of the same size
    whose alpha samples are the source's. *)
Lemma applyConvolution_alpha (img : ImageData) (kernel : list float)
    (kernelSize : nat) :
  valid_ImageData img →
  ∃ out, applyConvolution img kernel kernelSize = Some out
         ∧ width out = width img ∧ height out = height img
         ∧ ∀ x y, x < width img → y < height img →
             data out !! ((y * width img + x) * 4 + 3)
             = data img !! ((y * width img + x) * 4 + 3).
Proof.
  intros Hvalid. unfold applyConvolution.
  rewrite ImageData_new_same_length;
    [|done|by rewrite length_scan; apply length_replicate].
  eexists. split; [reflexivity|]. simpl. repeat split.
  intros x y Hx Hy. destruct Hvalid as (Hw & Hh & Hlen).
  rewrite scan_lookup; [|done|done|lia|].
  - simpl.
    destruct (lookup_lt_is_Some_2 (data img) ((y * width img + x) * 4 + 3))
      as [b Hb]; [nia|].
    rewrite Hb. f_equal.
    destruct (fold_left _ _ _) as [[r g] b']. by apply rd_lookup.
  - unfold new_Uint8ClampedArray. rewrite length_replicate. lia.
Qed.

(** C8: sharpen, emboss and edge-detect each return an image of the same
    size in which the alpha sample of every pixel is the alpha sample of
    the source at that pixel. *)
Theorem convolution_filters_keep_alpha (img : ImageData) :
  valid_ImageData img →
  ∀ filter,
    filter ∈ [applySharpenFilter; applyEmbossFilter; applyEdgeDetectFilter] →
    ∃ out, filter img = Some out
           ∧ width out = width img ∧ height out = height img
           ∧ ∀ x y, x < width img → y < height img →
               data out !! ((y * width img + x) * 4 + 3)
               = data img !! ((y * width img + x) * 4 + 3).
Proof.
  intros Hvalid filter Hin.
  apply elem_of_cons in Hin as [->|Hin];
    [exact (applyConvolution_alpha img _ 3 Hvalid)|].
  apply elem_of_cons in Hin as [->|Hin];
    [exact (applyConvolution_alpha img _ 3 Hvalid)|].
  apply elem_of_cons in Hin as [->|Hin];
    [exact (applyConvolution_alpha img _ 3 Hvalid)|].
  by apply elem_of_nil in Hin.
Qed.

(** ** Gaussian blur *)

Section Blur.

Variable Math_exp : float → float.
Hypothesis Math_exp_NaN : Math_exp nan = nan.




End Blur.

(** ** Grayscale *)

Lemma rd_app_r (p d : list byte) (i : nat) :
  rd (p ++ d) (length p + i) = rd d i.
Proof.
  unfold rd. rewrite lookup_app_r by lia.
  by replace (length p + i - length p) with i by lia.
Qed.

Lemma grayscale_step_app (p d : list byte) (i : nat) :
  grayscale_step (p ++ d) (length p + i) = p ++ grayscale_step d i.
Proof.
  unfold grayscale_step.
  rewrite <- !Nat.add_assoc, !rd_app_r, !insert_app_r. reflexivity.
Qed.

Lemma grayscale_step_pixel (r g b a : byte) (rest : list byte) :
  grayscale_step (r :: g :: b :: a :: rest) 0
  = gray r g b :: gray r g b :: gray r g b :: a :: rest.
Proof. reflexivity. Qed.

Lemma grayscale_loop (m : nat) :
  ∀ (d p : list byte) (k : nat),
    length p = 4 * k → (length d + 3) / 4 = m →
    fold_left grayscale_step (map (λ k, 4 * k) (seq k m)) (p ++ d)
    = p ++ gray_pixels d.
Proof.
  induction m as [|m IH]; intros d p k Hp Hm.
  - destruct d as [|r d]; [reflexivity|].
    exfalso. cbn [length] in Hm.
    assert (1 ≤ (S (length d) + 3) / 4)
      by (apply Nat.div_le_lower_bound; lia).
    lia.
  - cbn [seq map fold_left].
    replace (4 * k) with (length p + 0) by lia.
    rewrite grayscale_step_app.
    destruct d as [|r [|g [|b [|a rest]]]].
    + discriminate Hm.
    + injection Hm as <-. reflexivity.
    + injection Hm as <-. reflexivity.
    + injection Hm as <-. reflexivity.
    + rewrite grayscale_step_pixel.
      change (gray_pixels (r :: g :: b :: a :: rest))
        with (gray r g b :: gray r g b :: gray r g b :: a :: gray_pixels rest).
      specialize (IH rest (p ++ [gray r g b; gray r g b; gray r g b; a]) (S k)).
      rewrite <- !app_assoc in IH. cbn [app] in IH. apply IH.
      * rewrite length_app. simpl. lia.
      * cbn [length] in Hm.
        replace (S (S (S (S (length rest)))) + 3)
          with (length rest + 3 + 1 * 4) in Hm by lia.
        rewrite Nat.div_add in Hm by lia. lia.
Qed.

Lemma applyGrayscale_pixels (d : list byte) :
  applyGrayscale d = gray_pixels d.
Proof.
  unfold applyGrayscale, step4.
  apply (grayscale_loop ((length d + 3) / 4) d [] 0); reflexivity.
Qed.

(** A gray pixel keeps its value. *)
Lemma gray_fixed (y : byte) : gray y y y = y.
Proof. destruct y; vm_compute; reflexivity. Qed.

(** The last, incomplete block: a missing channel makes the luma [NaN],
    which is stored as 0. *)
Lemma grayscale_step_1 (r : byte) : grayscale_step [r] 0 = [x00].
Proof.
  unfold grayscale_step. cbn [rd lookup list_lookup Nat.add].
  rewrite mul_nan_l, !add_nan_r. reflexivity.
Qed.

Lemma grayscale_step_2 (r g : byte) : grayscale_step [r; g] 0 = [x00; x00].
Proof.
  unfold grayscale_step. cbn [rd lookup list_lookup Nat.add].
  rewrite mul_nan_l, !add_nan_r. reflexivity.
Qed.

Lemma grayscale_step_3 (r g b : byte) :
  grayscale_step [r; g; b] 0 = [gray r g b; gray r g b; gray r g b].
Proof. reflexivity. Qed.

Lemma gray_pixels_idempotent (d : list byte) :
  gray_pixels (gray_pixels d) = gray_pixels d.
Proof.
  induction d as [d IH] using (induction_ltof1 _ (@length byte)).
  unfold ltof in IH.
  destruct d as [|r [|g [|b [|a rest]]]].
  - reflexivity.
  - cbn [gray_pixels]. rewrite grayscale_step_1. reflexivity.
  - cbn [gray_pixels]. rewrite grayscale_step_2. reflexivity.
  - cbn [gray_pixels]. rewrite grayscale_step_3. cbn [gray_pixels].
    rewrite grayscale_step_3, !gray_fixed. reflexivity.
  - cbn [gray_pixels]. rewrite !gray_fixed, IH by (simpl; lia). reflexivity.
Qed.

(** C7: grayscale is idempotent on every sample array, with the stores
    rounded to 8 bits as [Uint8ClampedArray] rounds them. *)
Theorem applyGrayscale_idempotent (d : list byte) :
  applyGrayscale (applyGrayscale d) = applyGrayscale d.
Proof. rewrite !applyGrayscale_pixels. apply gray_pixels_idempotent. Qed.

(** ** Hue and saturation *)

(** C2 as the code has it: [%] keeps the sign of its left operand, so a
    negative hue shift can leave a negative hue. For the red pixel
    (255, 0, 0), whose hue is 0, and the hue parameter -90, the shifted hue is
    -0.25, outside [0, 1); its sector is -2, which none of the six cases of
    the back-conversion matches, and the pixel comes out black. *)
Theorem shift_hue_negative :
  let '(h, s, l) := rgb_to_hsl (255 / 255) (0 / 255) (0 / 255) in
  let hueShift := (-90 / 180 * Math_PI)%float in
  h = 0%float
  ∧ shift_hue h hueShift = (-0.25)%float
  ∧ in_unit_interval (shift_hue h hueShift) = false
  ∧ Math_floor (shift_hue h hueShift * 6) = (-2)%float
  ∧ applyHueSaturation [u8 255; u8 0; u8 0; u8 255] (-90) 0
    = [u8 0; u8 0; u8 0; u8 255].
Proof. vm_compute. repeat split; reflexivity. Qed.

(** ** Brightness and contrast *)

(** C3 as stated fails: nothing restricts the contrast before the factor
    is evaluated. At contrast 259 the divisor is 0 and the factor is
    infinite; a sample of 128 then becomes [NaN] and is stored as 0, where
    the contrast clamped to 100 would have left it at 128. *)
Lemma contrast_259_not_clamped :
  contrast_divisor 259 = 0%float
  ∧ contrastFactor 259 = infinity
  ∧ applyBrightnessContrast [u8 128; u8 128; u8 128; u8 255] 0 259
    = [u8 0; u8 0; u8 0; u8 255]
  ∧ applyBrightnessContrast [u8 128; u8 128; u8 128; u8 255] 0 259
    ≠ applyBrightnessContrast [u8 128; u8 128; u8 128; u8 255] 0 100.
Proof. vm_compute. repeat split; [reflexivity..|discriminate]. Qed.

(** C3 amended: the transform evaluates the factor on the contrast it is
    given; for every integer contrast of the documented range -100..100
    (the values of the dialog's slider) the divisor [255 * (259 - contrast)]
    is positive and the factor is a finite Number. *)
Theorem contrastFactor_in_range (c : Z) :
  (-100 ≤ c ≤ 100)%Z →
  (0 <? contrast_divisor (of_Z c))%float = true
  ∧ is_finite (contrastFactor (of_Z c)) = true.
Proof.
  intros Hc. apply andb_prop.
  apply (Zrange_forallb contrast_ok (-100) 201); [vm_compute; reflexivity|lia].
Qed.

(** ** Oil painting *)

Lemma clamp_coord_lt (limit : nat) (v : Z) : 0 < limit → clamp_coord limit v < limit.
Proof. unfold clamp_coord. lia. Qed.

Lemma length_offsets (half : nat) : length (offsets half) = 2 * half + 1.
Proof. unfold offsets. by rewrite length_map, length_seq. Qed.

Lemma length_window {A} (ks : list A) : length (window ks) = length ks * length ks.
Proof.
  unfold window. apply flat_map_constant_length.
  intros ky _. by rewrite length_map.
Qed.

(** The sum of three samples is exact. *)
Lemma add_small_exact (a b : Z) :
  (0 ≤ a < 511)%Z → (0 ≤ b < 256)%Z → (of_Z a + of_Z b)%float = of_Z (a + b).
Proof.
  intros Ha Hb. apply Leibniz.eqb_spec.
  apply (Zrange_forallb (λ b, add_exact a b) 0 256); [|lia].
  apply (Zrange_forallb
           (λ a, forallb (λ b, add_exact a b)
                         (map (λ k, (0 + Z.of_nat k)%Z) (seq 0 256))) 0 511);
    [vm_compute; reflexivity|lia].
Qed.

Lemma byte_range (b : byte) : (0 ≤ Z.of_N (Byte.to_N b) < 256)%Z.
Proof. pose proof (Byte.to_N_bounded b). lia. Qed.

Lemma add_samples_exact (r g b : byte) :
  ∃ s, (0 ≤ s < 766)%Z ∧ (of_byte r + of_byte g + of_byte b)%float = of_Z s.
Proof.
  pose proof (byte_range r). pose proof (byte_range g).
  pose proof (byte_range b).
  exists (Z.of_N (Byte.to_N r) + Z.of_N (Byte.to_N g) + Z.of_N (Byte.to_N b))%Z.
  split; [lia|]. unfold of_byte.
  rewrite add_small_exact by lia. apply add_small_exact; lia.
Qed.

(** With 55 levels every sample falls in one of the buckets 0..54. *)
Lemma oil_intensity_55 (r g b : byte) :
  ∃ n, to_index (oil_intensity 55 (of_byte r) (of_byte g) (of_byte b)) = Some n
       ∧ n < 55.
Proof.
  destruct (add_samples_exact r g b) as (s & Hs & Hsum).
  unfold oil_intensity. rewrite Hsum.
  assert (bucket_ok s = true) as Hok
    by (apply (Zrange_forallb bucket_ok 0 766); [vm_compute; reflexivity|lia]).
  unfold bucket_ok in Hok.
  destruct (to_index _) as [n|]; [|discriminate].
  exists n. split; [done|]. by apply Nat.ltb_lt.
Qed.

(** Counting. *)

Lemma length_incr_at (a : list nat) (i : nat) : length (incr_at a i) = length a.
Proof. unfold incr_at. destruct (a !! i); [apply length_insert|done]. Qed.

Lemma count_at_incr_at (a : list nat) (i j : nat) :
  count_at (incr_at a i) j
  = if decide (i = j ∧ i < length a) then S (count_at a j) else count_at a j.
Proof.
  unfold incr_at, count_at. destruct (a !! i) as [c|] eqn:Hi.
  - pose proof (lookup_lt_Some _ _ _ Hi).
    destruct (decide (i = j)) as [->|Hne].
    + rewrite list_lookup_insert_eq, Hi by done.
      by rewrite decide_True.
    + rewrite list_lookup_insert_ne by done.
      rewrite decide_False; [done|]. by intros [? _].
  - apply lookup_ge_None in Hi. rewrite decide_False; [done|]. lia.
Qed.

Lemma count_at_replicate_0 (n i : nat) : count_at (replicate n 0) i = 0.
Proof.
  unfold count_at. destruct (replicate n 0 !! i) as [c|] eqn:Hi; [|done].
  by apply lookup_replicate in Hi as [-> _].
Qed.

Lemma count_at_lookup (a : list nat) (i : nat) :
  i < length a → a !! i = Some (count_at a i).
Proof.
  intros Hi. unfold count_at.
  by destruct (lookup_lt_is_Some_2 a i Hi) as [c ->].
Qed.

Section OilWindow.

Variables (d : list byte) (w h L x y : nat).

Lemma oil_sample_length (bk : Buckets) (k : Z * Z) :
  length (intensityCount (oil_sample d w h L x y bk k))
  = length (intensityCount bk).
Proof.
  unfold oil_sample. destruct k as [kx ky].
  destruct (to_index _); [apply length_incr_at|done].
Qed.

Lemma oil_sample_mono (bk : Buckets) (k : Z * Z) (i : nat) :
  count_at (intensityCount bk) i
  ≤ count_at (intensityCount (oil_sample d w h L x y bk k)) i
  ≤ S (count_at (intensityCount bk) i).
Proof.
  unfold oil_sample. destruct k as [kx ky].
  destruct (to_index _) as [n|]; cbn [intensityCount]; [|lia].
  rewrite count_at_incr_at. case_decide; lia.
Qed.

Lemma oil_fold_length (l : list (Z * Z)) (bk : Buckets) :
  length (intensityCount (fold_left (oil_sample d w h L x y) l bk))
  = length (intensityCount bk).
Proof.
  revert bk. induction l as [|k l IH]; intros bk; [done|].
  simpl. rewrite IH. apply oil_sample_length.
Qed.

Lemma oil_fold_mono (l : list (Z * Z)) (bk : Buckets) (i : nat) :
  count_at (intensityCount bk) i
  ≤ count_at (intensityCount (fold_left (oil_sample d w h L x y) l bk)) i
  ≤ count_at (intensityCount bk) i + length l.
Proof.
  revert bk. induction l as [|k l IH]; intros bk; simpl; [lia|].
  pose proof (IH (oil_sample d w h L x y bk k)).
  pose proof (oil_sample_mono bk k i). lia.
Qed.

End OilWindow.

(** A sample of a well-formed image enters a bucket. *)
Lemma oil_sample_lands (img : ImageData) (x y : nat) (bk : Buckets) (k : Z * Z) :
  valid_ImageData img →
  length (intensityCount bk) = 55 →
  ∃ n, n < 55 ∧
    count_at (intensityCount
                (oil_sample (data img) (width img) (height img) 55 x y bk k)) n
    = S (count_at (intensityCount bk) n).
Proof.
  intros (Hw & Hh & Hlen) Hbk. unfold oil_sample. destruct k as [kx ky].
  pose proof (clamp_coord_lt (width img) (Z.of_nat x + kx) Hw) as Hpx.
  pose proof (clamp_coord_lt (height img) (Z.of_nat y + ky) Hh) as Hpy.
  set (px := clamp_coord (width img) (Z.of_nat x + kx)) in *.
  set (py := clamp_coord (height img) (Z.of_nat y + ky)) in *.
  assert ((py * width img + px) * 4 + 3 < length (data img)) as Hidx by nia.
  unfold rd.
  destruct (lookup_lt_is_Some_2 (data img) ((py * width img + px) * 4))
    as [r ->]; [lia|].
  destruct (lookup_lt_is_Some_2 (data img) ((py * width img + px) * 4 + 1))
    as [g ->]; [lia|].
  destruct (lookup_lt_is_Some_2 (data img) ((py * width img + px) * 4 + 2))
    as [b ->]; [lia|].
  destruct (oil_intensity_55 r g b) as (n & -> & Hn).
  exists n. split; [done|]. cbn [intensityCount].
  rewrite count_at_incr_at, decide_True; [done|lia].
Qed.

(** The loop that looks for the fullest bucket. *)
Lemma oil_maxIndex_loop (counts : list nat) (n : nat) :
  ∀ a m0,
    m0 < a → (∀ i, i < a → count_at counts i ≤ count_at counts m0) →
    let m := fold_left (λ maxIndex i,
                          if count_at counts maxIndex <? count_at counts i
                          then i else maxIndex) (seq a n) m0 in
    m < a + n ∧ ∀ i, i < a + n → count_at counts i ≤ count_at counts m.
Proof.
  induction n as [|n IH]; intros a m0 Hm0 Hmax; cbn [seq fold_left].
  - rewrite Nat.add_0_r. by split.
  - replace (a + S n) with (S a + n) by lia. apply IH.
    + destruct (Nat.ltb_spec (count_at counts m0) (count_at counts a)); lia.
    + intros i Hi.
      destruct (Nat.ltb_spec (count_at counts m0) (count_at counts a)) as [Hlt|Hge].
      * destruct (decide (i = a)) as [->|]; [lia|].
        specialize (Hmax i). lia.
      * destruct (decide (i = a)) as [->|]; [lia|].
        specialize (Hmax i). lia.
Qed.

Lemma oil_maxIndex_spec (intensityLevels : nat) (counts : list nat) :
  0 < intensityLevels →
  oil_maxIndex intensityLevels counts < intensityLevels
  ∧ ∀ i, i < intensityLevels →
      count_at counts i ≤ count_at counts (oil_maxIndex intensityLevels counts).
Proof.
  intros HL. unfold oil_maxIndex.
  pose proof (oil_maxIndex_loop counts (intensityLevels - 1) 1 0) as Hloop.
  replace (1 + (intensityLevels - 1)) with intensityLevels in Hloop by lia.
  apply Hloop; [lia|].
  intros i Hi. by replace i with 0 by lia.
Qed.

(** C10: in the oil-painting filter (55 intensity levels, as
    [applyOilPainting] calls it), for every well-formed image and every
    destination pixel, the bucket that the search for the maximum selects
    holds at least one sample of the window and at most all of them; the
    divisor of the three output channels is that count, and for a radius up
    to the filter's 7 it is a Number that is at least 1. *)
Theorem oil_painting_bucket_not_empty (img : ImageData) (radius x y : nat) :
  valid_ImageData img → x < width img → y < height img →
  let bk := oil_buckets (data img) (width img) (height img) radius 55 x y in
  let maxIndex := oil_maxIndex 55 (intensityCount bk) in
  ∃ c, intensityCount bk !! maxIndex = Some c
       ∧ 1 ≤ c ≤ (2 * radius + 1) * (2 * radius + 1)
       ∧ oil_divisor (intensityCount bk) maxIndex = of_nat c
       ∧ (radius ≤ 7 → (1 <=? of_nat c)%float = true).
Proof.
  intros Hvalid Hx Hy bk maxIndex.
  destruct (oil_maxIndex_spec 55 (intensityCount bk)) as [Hlt Hmax]; [lia|].
  fold maxIndex in Hlt, Hmax.
  assert (length (intensityCount bk) = 55) as Hlen.
  { unfold bk, oil_buckets. rewrite oil_fold_length. apply length_replicate. }
  exists (count_at (intensityCount bk) maxIndex).
  assert (1 ≤ count_at (intensityCount bk) maxIndex
          ≤ (2 * radius + 1) * (2 * radius + 1)) as Hc.
  { split.
    - unfold bk, oil_buckets in *.
      destruct (window (offsets radius)) as [|k taps] eqn:Htaps.
      { apply (f_equal length) in Htaps.
        rewrite length_window, length_offsets in Htaps. simpl in Htaps. lia. }
      cbn [fold_left] in *.
      set (bk0 := mkBuckets _ _ _ _) in *.
      destruct (oil_sample_lands img x y bk0 k Hvalid) as (n & Hn & Hland).
      { apply length_replicate. }
      pose proof (oil_fold_mono (data img) (width img) (height img) 55 x y taps
                    (oil_sample (data img) (width img) (height img) 55 x y bk0 k)
                    n) as [Hmono _].
      specialize (Hmax n Hn). lia.
    - pose proof (oil_fold_mono (data img) (width img) (height img) 55 x y
                    (window (offsets radius))
                    (mkBuckets (replicate 55 0) (replicate 55 0%float)
                               (replicate 55 0%float) (replicate 55 0%float))
                    maxIndex) as [_ Hle].
      cbn [intensityCount] in Hle.
      rewrite count_at_replicate_0, length_window, length_offsets in Hle.
      exact Hle. }
  split; [apply count_at_lookup; lia|].
  split; [exact Hc|].
  split.
  - unfold oil_divisor. rewrite count_at_lookup by lia. reflexivity.
  - intros Hr. unfold of_nat.
    apply (Zrange_forallb count_positive 1 225); [vm_compute; reflexivity|].
    nia.
Qed.

(** ** The theorems at concrete inputs *)


(** The factor at contrast 50. *)
Lemma contrastFactor_at_50 :
  (-100 ≤ 50 ≤ 100)%Z
  ∧ (0 <? contrast_divisor (of_Z 50))%float = true
  ∧ is_finite (contrastFactor (of_Z 50)) = true.
Proof.
  assert (-100 ≤ 50 ≤ 100)%Z as H by lia.
  split; [exact H|]. exact (contrastFactor_in_range 50 H).
Defined.

(** "contrast" names a dialog but no case of the dispatch. *)
Lemma processImageData_contrast :
  valid_ImageData rgbw
  ∧ ("contrast" ∉ dispatched)
  ∧ processImageData exp_series random_alternating rgbw "contrast"
      {["contrast" := VNum 40]} = Some rgbw.
Proof.
  assert (valid_ImageData rgbw) as Hvalid
    by (unfold valid_ImageData; simpl; lia).
  assert ("contrast" ∉ dispatched) as Hnot.
  { unfold dispatched. intros Hin.
    repeat (apply elem_of_cons in Hin as [Hin|Hin]; [discriminate Hin|]).
    by apply elem_of_nil in Hin. }
  split; [exact Hvalid|]. split; [exact Hnot|].
  exact (processImageData_unknown_type exp_series random_alternating
           rgbw "contrast" _ Hvalid Hnot).
Defined.

(** Merging down the background of a three-layer document. *)
Lemma mergeDown_background :
  (layers three_layers !! 0
   = Some (new_Layer "layer_a" "Background" 1 1 (Some true)))
  ∧ mergeDown supported_basic drawImage_copy three_layers "layer_a"
    = three_layers.
Proof.
  assert (layers three_layers !! 0
          = Some (new_Layer "layer_a" "Background" 1 1 (Some true))) as H
    by reflexivity.
  split; [exact H|].
  exact (mergeDown_bottom_layer supported_basic drawImage_copy three_layers _ H).
Defined.

(** Flattening a three-layer document. *)
Lemma flattenImage_three_layers :
  2 ≤ length (layers three_layers)
  ∧ ∃ l, layers (flattenImage supported_basic drawImage_copy "layer_d"
                   three_layers) = [l]
         ∧ name l = "Flattened"
         ∧ id l = "layer_d"
         ∧ activeLayerIndex (flattenImage supported_basic drawImage_copy
                               "layer_d" three_layers) = 0%Z
         ∧ ((∀ l', l' ∈ layers three_layers → id l' ≠ "layer_d")
            → l ∉ layers three_layers).
Proof.
  assert (2 ≤ length (layers three_layers)) as H by (simpl; lia).
  split; [exact H|].
  exact (flattenImage_one_layer supported_basic drawImage_copy "layer_d"
           three_layers H).
Defined.

(** Sharpening the 2 x 2 image. *)
Lemma applySharpenFilter_rgbw :
  valid_ImageData rgbw
  ∧ ∃ out, applySharpenFilter rgbw = Some out
           ∧ width out = width rgbw ∧ height out = height rgbw
           ∧ ∀ x y, x < width rgbw → y < height rgbw →
               data out !! ((y * width rgbw + x) * 4 + 3)
               = data rgbw !! ((y * width rgbw + x) * 4 + 3).
Proof.
  assert (valid_ImageData rgbw) as Hvalid
    by (unfold valid_ImageData; simpl; lia).
  split; [exact Hvalid|].
  apply (convolution_filters_keep_alpha rgbw Hvalid applySharpenFilter).
  apply elem_of_cons. left. reflexivity.
Defined.

(** The oil painting of the 2 x 2 image at its last pixel. *)
Lemma oil_painting_rgbw :
  valid_ImageData rgbw ∧ 1 < width rgbw ∧ 1 < height rgbw
  ∧ let bk := oil_buckets (data rgbw) (width rgbw) (height rgbw) 7 55 1 1 in
    let maxIndex := oil_maxIndex 55 (intensityCount bk) in
    ∃ c, intensityCount bk !! maxIndex = Some c
         ∧ 1 ≤ c ≤ (2 * 7 + 1) * (2 * 7 + 1)
         ∧ oil_divisor (intensityCount bk) maxIndex = of_nat c
         ∧ (7 ≤ 7 → (1 <=? of_nat c)%float = true).
Proof.
  assert (valid_ImageData rgbw) as Hvalid
    by (unfold valid_ImageData; simpl; lia).
  assert (1 < width rgbw) as Hx by (simpl; lia).
  assert (1 < height rgbw) as Hy by (simpl; lia).
  split; [exact Hvalid|]. split; [exact Hx|]. split; [exact Hy|].
  exact (oil_painting_bucket_not_empty rgbw 7 1 1 Hvalid Hx Hy).
Defined.

(** * Further properties *)

(** ** Loops that store the three colour samples of each pixel *)

Section RgbStores.

Variable step : list byte → nat → list byte.
Hypothesis step_stores :
  ∀ data i, ∃ v0 v1 v2,
    step data i = <[i + 2 := v2]> (<[i + 1 := v1]> (<[i := v0]> data)).

Lemma rgb_loop_length (l : list nat) (data : list byte) :
  length (fold_left step l data) = length data.
Proof.
  revert data. induction l as [|i l IH]; intros data; [done|].
  simpl. rewrite IH. destruct (step_stores data i) as (v0 & v1 & v2 & ->).
  by rewrite !length_insert.
Qed.

Lemma rgb_loop_alpha (l : list nat) (data : list byte) (j : nat) :
  (∀ i, In i l → i mod 4 = 0) → j mod 4 = 3 →
  fold_left step l data !! j = data !! j.
Proof.
  revert data. induction l as [|i l IH]; intros data Hl Hj; [done|].
  simpl. rewrite IH; [|intros i' Hi'; apply Hl; by right|done].
  destruct (step_stores data i) as (v0 & v1 & v2 & ->).
  assert (i mod 4 = 0) as Hi by (apply Hl; by left).
  pose proof (Nat.div_mod_eq i 4). pose proof (Nat.div_mod_eq j 4).
  rewrite !list_lookup_insert_ne by lia. done.
Qed.

End RgbStores.

Lemma step4_aligned (len i : nat) : In i (step4 len) → i mod 4 = 0.
Proof.
  unfold step4. intros Hin. apply in_map_iff in Hin as (k & <- & _).
  rewrite Nat.mul_comm. apply Nat.Div0.mod_mul.
Qed.

Lemma in_place_filter_keeps Math_random f (d : list byte) :
  in_place_filter Math_random f →
  length (f d) = length d
  ∧ ∀ j, j mod 4 = 3 → f d !! j = d !! j.
Proof.
  intros Hf. destruct Hf.
  - unfold applyBrightnessContrast. split.
    + apply rgb_loop_length. intros; eexists _, _, _; reflexivity.
    + intros j Hj. apply rgb_loop_alpha; [|apply step4_aligned|done].
      intros; eexists _, _, _; reflexivity.
  - unfold applyHueSaturation.
    assert (∀ data i, ∃ v0 v1 v2,
      (let r := (rd data i / 255)%float in
       let g := (rd data (i + 1) / 255)%float in
       let b := (rd data (i + 2) / 255)%float in
       let '(h0, s0, l) := rgb_to_hsl r g b in
       let h1 := shift_hue h0 (h / 180 * Math_PI) in
       let s1 := Math_max 0 (Math_min 1 (s0 * (1 + s / 100))%float) in
       let '(r', g', b') := hsl_to_rgb h1 s1 l in
       let data := <[i := ToUint8Clamp r']> data in
       let data := <[i + 1 := ToUint8Clamp g']> data in
       <[i + 2 := ToUint8Clamp b']> data)
      = <[i + 2 := v2]> (<[i + 1 := v1]> (<[i := v0]> data))) as Hstep.
    { intros data i. cbv zeta.
      destruct (rgb_to_hsl _ _ _) as [[h0 s0] l].
      destruct (hsl_to_rgb _ _ _) as [[r' g'] b'].
      eexists _, _, _; reflexivity. }
    split.
    + by apply rgb_loop_length.
    + intros j Hj. apply rgb_loop_alpha; [done|apply step4_aligned|done].
  - unfold applyNoiseFilter. split.
    + apply rgb_loop_length. intros; eexists _, _, _; reflexivity.
    + intros j Hj. apply rgb_loop_alpha; [|apply step4_aligned|done].
      intros; eexists _, _, _; reflexivity.
  - unfold applySepia. split.
    + apply rgb_loop_length. intros; eexists _, _, _; reflexivity.
    + intros j Hj. apply rgb_loop_alpha; [|apply step4_aligned|done].
      intros; eexists _, _, _; reflexivity.
  - unfold applyGrayscale. split.
    + apply rgb_loop_length. intros; eexists _, _, _; reflexivity.
    + intros j Hj. apply rgb_loop_alpha; [|apply step4_aligned|done].
      intros; eexists _, _, _; reflexivity.
  - unfold applyInvert. split.
    + apply rgb_loop_length. intros; eexists _, _, _; reflexivity.
    + intros j Hj. apply rgb_loop_alpha; [|apply step4_aligned|done].
      intros; eexists _, _, _; reflexivity.
Qed.

(** ** The dispatch on well-formed images *)

Lemma ImageData_new_Some (d : list byte) (w h : nat) (out : ImageData) :
  ImageData_new d w h = Some out →
  out = mkImageData d w h ∧ length d = w * h * 4.
Proof.
  unfold ImageData_new. intros H.
  destruct (0 <? length d); [|done].
  destruct (Nat.eqb_spec (length d) (w * h * 4)); [|done].
  simpl in H. by injection H as <-.
Qed.

Lemma applyBlur_Some Math_exp (img out : ImageData) (radius : float) :
  applyBlur Math_exp img radius = Some out →
  width out = width img ∧ height out = height img
  ∧ length (data out) = width img * height img * 4.
Proof.
  unfold applyBlur. destruct (generateGaussianKernel Math_exp radius); [|done].
  cbn [mbind option_bind]. intros H.
  by apply ImageData_new_Some in H as [-> H].
Qed.

Lemma applyConvolution_Some (img out : ImageData) kernel kernelSize :
  applyConvolution img kernel kernelSize = Some out →
  width out = width img ∧ height out = height img
  ∧ length (data out) = width img * height img * 4.
Proof.
  unfold applyConvolution. intros H.
  by apply ImageData_new_Some in H as [-> H].
Qed.

Lemma in_place_filter_image Math_random f (img : ImageData) :
  in_place_filter Math_random f → valid_ImageData img →
  ImageData_new (f (data img)) (width img) (height img)
  = Some (mkImageData (f (data img)) (width img) (height img)).
Proof.
  intros Hf Hvalid. apply ImageData_new_same_length; [done|].
  by apply (in_place_filter_keeps Math_random f).
Qed.

Section DispatchShape.

Variable Math_exp : float → float.
Variable Math_random : nat → float.

(** The branch of an in-place filter [f] of the dispatch. *)
Local Ltac in_place_size f :=
  match goal with
  | Hvalid : valid_ImageData ?img |- _ =>
      let E := fresh "E" in
      let K := fresh "K" in
      assert (in_place_filter Math_random f) as K by constructor;
      pose proof (in_place_filter_image Math_random f img K Hvalid) as E;
      cbv beta in E; rewrite E;
      split; [by eexists|];
      intros ? [= <-]; cbn [data width height];
      repeat split;
      apply (in_place_filter_keeps Math_random f (data img) K)
  end.

Local Ltac in_place_alpha f :=
  match goal with
  | Hvalid : valid_ImageData ?img |- _ =>
      let E := fresh "E" in
      let K := fresh "K" in
      assert (in_place_filter Math_random f) as K by constructor;
      pose proof (in_place_filter_image Math_random f img K Hvalid) as E;
      cbv beta in E; rewrite E;
      eexists; split; [reflexivity|];
      intros ? ? _ _; cbn [data];
      apply (in_place_filter_keeps Math_random f (data img) K);
      match goal with H : ∀ x y, _ mod 4 = 3 |- _ => apply H end
  end.

(** The dispatch never changes the size of an image: whatever the filter
    type and the options, a returned image has the width, the height and
    the number of samples of the image passed in. And it returns: only the
    blur case can throw (the RangeError of a kernel size that is no array
    length). *)
Theorem processImageData_keeps_size
    (img : ImageData) (filterType : string) (options : gmap string value) :
  valid_ImageData img →
  (filterType ≠ "blur" →
   is_Some (processImageData Math_exp Math_random img filterType options))
  ∧ ∀ out,
      processImageData Math_exp Math_random img filterType options = Some out →
      width out = width img ∧ height out = height img
      ∧ length (data out) = length (data img).
Proof.
  intros Hvalid. pose proof Hvalid as (Hw & Hh & Hlen).
  unfold processImageData.
  repeat match goal with
  | |- context [String.eqb filterType ?s] =>
      destruct (String.eqb_spec filterType s) as [->|?]
  end.
  - in_place_size (λ d, applyBrightnessContrast d
        (ToNumber (or_else (options !! "brightness") (VNum 0)))
        (ToNumber (or_else (options !! "contrast") (VNum 0)))).
  - in_place_size (λ d, applyHueSaturation d
        (ToNumber (or_else (options !! "hue") (VNum 0)))
        (ToNumber (or_else (options !! "saturation") (VNum 0)))).
  - split; [done|]. intros out H. apply applyBlur_Some in H. lia.
  - destruct (applyConvolution_alpha img [0; -1; 0; -1; 5; -1; 0; -1; 0]%float
                3 Hvalid) as (o & Ho & _).
    unfold applySharpenFilter. split; [by eexists|].
    intros out H. apply applyConvolution_Some in H. lia.
  - in_place_size (λ d, applyNoiseFilter Math_random d
        (ToNumber (or_else (options !! "amount") (VNum 25)))
        (ToBoolean (or_else (options !! "uniform") (VBool false)))).
  - in_place_size applySepia.
  - in_place_size applyGrayscale.
  - in_place_size applyInvert.
  - destruct (applyConvolution_alpha img [-2; -1; 0; -1; 1; 1; 0; 1; 2]%float
                3 Hvalid) as (o & Ho & _).
    unfold applyEmbossFilter. split; [by eexists|].
    intros out H. apply applyConvolution_Some in H. lia.
  - destruct (applyConvolution_alpha img [0; 1; 0; 1; -4; 1; 0; 1; 0]%float
                3 Hvalid) as (o & Ho & _).
    unfold applyEdgeDetectFilter. split; [by eexists|].
    intros out H. apply applyConvolution_Some in H. lia.
  - rewrite ImageData_new_valid by done. split; [by eexists|].
    by intros out [= <-].
Qed.

(** Blur is the only filter of the dispatch that touches the alpha
    channel: for every other filter type, dispatched or not, and all
    options, the alpha sample of every pixel of the result is the one of
    the source. *)
Theorem processImageData_keeps_alpha
    (img : ImageData) (filterType : string) (options : gmap string value) :
  valid_ImageData img → filterType ≠ "blur" →
  ∃ out,
    processImageData Math_exp Math_random img filterType options = Some out
    ∧ ∀ x y, x < width img → y < height img →
        data out !! ((y * width img + x) * 4 + 3)
        = data img !! ((y * width img + x) * 4 + 3).
Proof.
  intros Hvalid Hblur.
  assert (∀ x y, ((y * width img + x) * 4 + 3) mod 4 = 3) as Hmod.
  { intros x y. rewrite Nat.add_comm, Nat.Div0.mod_add. reflexivity. }
  unfold processImageData.
  repeat match goal with
  | |- context [String.eqb filterType ?s] =>
      destruct (String.eqb_spec filterType s) as [->|?]
  end.
  - in_place_alpha (λ d, applyBrightnessContrast d
        (ToNumber (or_else (options !! "brightness") (VNum 0)))
        (ToNumber (or_else (options !! "contrast") (VNum 0)))).
  - in_place_alpha (λ d, applyHueSaturation d
        (ToNumber (or_else (options !! "hue") (VNum 0)))
        (ToNumber (or_else (options !! "saturation") (VNum 0)))).
  - done.
  - destruct (applyConvolution_alpha img [0; -1; 0; -1; 5; -1; 0; -1; 0]%float
                3 Hvalid) as (o & Ho & _ & _ & Ha).
    by exists o.
  - in_place_alpha (λ d, applyNoiseFilter Math_random d
        (ToNumber (or_else (options !! "amount") (VNum 25)))
        (ToBoolean (or_else (options !! "uniform") (VBool false)))).
  - in_place_alpha applySepia.
  - in_place_alpha applyGrayscale.
  - in_place_alpha applyInvert.
  - destruct (applyConvolution_alpha img [-2; -1; 0; -1; 1; 1; 0; 1; 2]%float
                3 Hvalid) as (o & Ho & _ & _ & Ha).
    by exists o.
  - destruct (applyConvolution_alpha img [0; 1; 0; 1; -4; 1; 0; 1; 0]%float
                3 Hvalid) as (o & Ho & _ & _ & Ha).
    by exists o.
  - rewrite ImageData_new_valid by done. by exists img.
Qed.

End DispatchShape.

(** ** Loops that act on each block of four samples *)

Lemma list_ind4 {A} (P : list A → Prop) :
  P [] → (∀ a, P [a]) → (∀ a b, P [a; b]) → (∀ a b c, P [a; b; c]) →
  (∀ a b c d l, P l → P (a :: b :: c :: d :: l)) →
  ∀ l, P l.
Proof.
  intros H0 H1 H2 H3 H4 l.
  induction l as [l IH] using (induction_ltof1 _ (@length A)).
  unfold ltof in IH.
  destruct l as [|a [|b [|c [|d l]]]]; [done..|].
  apply H4, IH. simpl. lia.
Qed.

Section Blocks.

Variable step : list byte → nat → list byte.
Hypothesis step_app :
  ∀ p d i, step (p ++ d) (length p + i) = p ++ step d i.
Hypothesis step_length : ∀ d i, length (step d i) = length d.
Hypothesis step_pixel :
  ∀ r g b a rest,
    step (r :: g :: b :: a :: rest) 0 = step [r; g; b; a] 0 ++ rest.

Lemma blocks_loop_from (m : nat) :
  ∀ (d p : list byte) (k : nat),
    length p = 4 * k → (length d + 3) / 4 = m →
    fold_left step (map (λ k, 4 * k) (seq k m)) (p ++ d)
    = p ++ blocks step d.
Proof.
  induction m as [|m IH]; intros d p k Hp Hm.
  - destruct d as [|r d]; [|exfalso].
    + simpl. specialize (step_app p [] 0). rewrite Nat.add_0_r in step_app.
      pose proof (step_length [] 0) as Hnil.
      destruct (step [] 0); [done|discriminate Hnil].
    + cbn [length] in Hm.
      assert (1 ≤ (S (length d) + 3) / 4)
        by (apply Nat.div_le_lower_bound; lia).
      lia.
  - cbn [seq map fold_left].
    replace (4 * k) with (length p + 0) by lia.
    rewrite step_app.
    destruct d as [|r [|g [|b [|a rest]]]].
    + discriminate Hm.
    + injection Hm as <-. reflexivity.
    + injection Hm as <-. reflexivity.
    + injection Hm as <-. reflexivity.
    + rewrite step_pixel. cbn [blocks].
      rewrite !(app_assoc p).
      apply (IH rest (p ++ step [r; g; b; a] 0) (S k)).
      * rewrite length_app, step_length. simpl. lia.
      * cbn [length] in Hm.
        replace (S (S (S (S (length rest)))) + 3)
          with (length rest + 3 + 1 * 4) in Hm by lia.
        rewrite Nat.div_add in Hm by lia. lia.
Qed.

Lemma blocks_loop (d : list byte) :
  fold_left step (step4 (length d)) d = blocks step d.
Proof.
  unfold step4.
  apply (blocks_loop_from ((length d + 3) / 4) d [] 0); reflexivity.
Qed.

End Blocks.

(** ** Invert *)

Lemma invert_step_app (p d : list byte) (i : nat) :
  invert_step (p ++ d) (length p + i) = p ++ invert_step d i.
Proof.
  unfold invert_step. cbv zeta.
  rewrite <- !Nat.add_assoc.
  rewrite rd_app_r, insert_app_r, rd_app_r, insert_app_r, rd_app_r,
    insert_app_r.
  reflexivity.
Qed.

Lemma applyInvert_blocks (d : list byte) :
  applyInvert d = blocks invert_step d.
Proof.
  change (applyInvert d) with (fold_left invert_step (step4 (length d)) d).
  apply blocks_loop.
  - apply invert_step_app.
  - intros d' i. unfold invert_step. by rewrite !length_insert.
  - reflexivity.
Qed.

Lemma inv_inv (b : byte) : inv (inv b) = b.
Proof. destruct b; vm_compute; reflexivity. Qed.

Lemma blocks_invert_involutive (d : list byte) :
  blocks invert_step (blocks invert_step d) = d.
Proof.
  induction d as [|r|r g|r g b|r g b a rest IH] using list_ind4.
  - reflexivity.
  - change (blocks invert_step [r]) with [inv r].
    change (blocks invert_step [inv r]) with [inv (inv r)].
    by rewrite inv_inv.
  - change (blocks invert_step [r; g]) with [inv r; inv g].
    change (blocks invert_step [inv r; inv g]) with [inv (inv r); inv (inv g)].
    by rewrite !inv_inv.
  - change (blocks invert_step [r; g; b]) with [inv r; inv g; inv b].
    change (blocks invert_step [inv r; inv g; inv b])
      with [inv (inv r); inv (inv g); inv (inv b)].
    by rewrite !inv_inv.
  - change (blocks invert_step (r :: g :: b :: a :: rest))
      with (inv r :: inv g :: inv b :: a :: blocks invert_step rest).
    change (blocks invert_step
              (inv r :: inv g :: inv b :: a :: blocks invert_step rest))
      with (inv (inv r) :: inv (inv g) :: inv (inv b) :: a ::
            blocks invert_step (blocks invert_step rest)).
    by rewrite !inv_inv, IH.
Qed.

(** Invert is an involution: applied twice it gives back every sample
    array exactly, whatever its length. *)
Theorem applyInvert_involutive (d : list byte) :
  applyInvert (applyInvert d) = d.
Proof. rewrite !applyInvert_blocks. apply blocks_invert_involutive. Qed.

(** ** Brightness and contrast at 0 *)

Lemma brightness_contrast_step_app b c (p d : list byte) (i : nat) :
  brightness_contrast_step b c (p ++ d) (length p + i)
  = p ++ brightness_contrast_step b c d i.
Proof.
  unfold brightness_contrast_step. cbv zeta.
  rewrite <- !Nat.add_assoc, !rd_app_r, !insert_app_r. reflexivity.
Qed.

Lemma applyBrightnessContrast_blocks b c (d : list byte) :
  applyBrightnessContrast d b c = blocks (brightness_contrast_step b c) d.
Proof.
  change (applyBrightnessContrast d b c)
    with (fold_left (brightness_contrast_step b c) (step4 (length d)) d).
  apply blocks_loop.
  - apply brightness_contrast_step_app.
  - intros d' i. unfold brightness_contrast_step. by rewrite !length_insert.
  - reflexivity.
Qed.

Lemma neutral_sample (v : byte) :
  ToUint8Clamp
    (Math_max 0
       (Math_min 255
          (contrastFactor 0 * (of_byte v + 0 / 100 * 255 - 128) + 128)%float))
  = v.
Proof. destruct v; vm_compute; reflexivity. Qed.

Lemma brightness_contrast_neutral_pixel (r g b a : byte) :
  brightness_contrast_step 0 0 [r; g; b; a] 0 = [r; g; b; a].
Proof.
  change (brightness_contrast_step 0 0 [r; g; b; a] 0)
    with [ToUint8Clamp
            (Math_max 0
               (Math_min 255
                  (contrastFactor 0 * (of_byte r + 0 / 100 * 255 - 128) + 128)%float));
          ToUint8Clamp
            (Math_max 0
               (Math_min 255
                  (contrastFactor 0 * (of_byte g + 0 / 100 * 255 - 128) + 128)%float));
          ToUint8Clamp
            (Math_max 0
               (Math_min 255
                  (contrastFactor 0 * (of_byte b + 0 / 100 * 255 - 128) + 128)%float));
          a].
  by rewrite !neutral_sample.
Qed.

(** Brightness 0 with contrast 0 is the identity on every sample array. *)
Theorem applyBrightnessContrast_neutral (d : list byte) :
  applyBrightnessContrast d 0 0 = d.
Proof.
  rewrite applyBrightnessContrast_blocks.
  induction d as [|r|r g|r g b|r g b a rest IH] using list_ind4.
  - reflexivity.
  - change (blocks (brightness_contrast_step 0 0) [r])
      with (take 1 (brightness_contrast_step 0 0 [r; r; r; r] 0)).
    by rewrite brightness_contrast_neutral_pixel.
  - change (blocks (brightness_contrast_step 0 0) [r; g])
      with (take 2 (brightness_contrast_step 0 0 [r; g; r; r] 0)).
    by rewrite brightness_contrast_neutral_pixel.
  - change (blocks (brightness_contrast_step 0 0) [r; g; b])
      with (take 3 (brightness_contrast_step 0 0 [r; g; b; r] 0)).
    by rewrite brightness_contrast_neutral_pixel.
  - cbn [blocks]. by rewrite brightness_contrast_neutral_pixel, IH.
Qed.

(** ** Grayscale pixels *)

Lemma gray_pixels_lookup (k : nat) :
  ∀ d : list byte, 4 * k + 3 < length d →
    ∃ y, gray_pixels d !! (4 * k) = Some y
         ∧ gray_pixels d !! (4 * k + 1) = Some y
         ∧ gray_pixels d !! (4 * k + 2) = Some y
         ∧ gray_pixels d !! (4 * k + 3) = d !! (4 * k + 3).
Proof.
  induction k as [|k IH]; intros d Hlen.
  - destruct d as [|r [|g [|b [|a rest]]]]; simpl in Hlen; try lia.
    exists (gray r g b). by repeat split.
  - destruct d as [|r [|g [|b [|a rest]]]]; simpl in Hlen; try lia.
    destruct (IH rest) as (y & H0 & H1 & H2 & H3); [lia|].
    exists y. cbn [gray_pixels].
    replace (4 * S k) with (S (S (S (S (4 * k))))) by lia.
    by repeat split.
Qed.

Lemma grayscale_pixel_gray (d : list byte) (k : nat) :
  4 * k + 3 < length d →
  ∃ y, applyGrayscale d !! (4 * k) = Some y
       ∧ applyGrayscale d !! (4 * k + 1) = Some y
       ∧ applyGrayscale d !! (4 * k + 2) = Some y
       ∧ applyGrayscale d !! (4 * k + 3) = d !! (4 * k + 3).
Proof. rewrite applyGrayscale_pixels. apply gray_pixels_lookup. Qed.

(** After grayscale the three colour samples of every complete pixel are
    equal and its alpha sample is the one it had. *)
Theorem applyGrayscale_gray (d : list byte) (k : nat) :
  4 * k + 3 < length d →
  ∃ y, applyGrayscale d !! (4 * k) = Some y
       ∧ applyGrayscale d !! (4 * k + 1) = Some y
       ∧ applyGrayscale d !! (4 * k + 2) = Some y
       ∧ applyGrayscale d !! (4 * k + 3) = d !! (4 * k + 3).
Proof. exact (grayscale_pixel_gray d k). Qed.

(** ** Scans that reproduce an image *)

Lemma sample_position (w h k : nat) :
  k < w * h * 4 →
  ∃ x y c, x < w ∧ y < h ∧ c < 4 ∧ k = (y * w + x) * 4 + c.
Proof.
  intros Hk. assert (0 < w) by nia.
  exists ((k / 4) mod w), ((k / 4) / w), (k mod 4).
  pose proof (Nat.div_mod_eq k 4). pose proof (Nat.div_mod_eq (k / 4) w).
  pose proof (Nat.mod_upper_bound k 4). pose proof (Nat.mod_upper_bound (k / 4) w).
  assert (k / 4 < w * h) by (apply Nat.Div0.div_lt_upper_bound; lia).
  assert (k / 4 / w < h) by (apply Nat.Div0.div_lt_upper_bound; lia).
  repeat split; try lia.
Qed.

Lemma scan_reproduces (w h : nat) body (d : list byte) :
  length d = w * h * 4 →
  (∀ x y c b, x < w → y < h → c < 4 →
     d !! ((y * w + x) * 4 + c) = Some b →
     ToUint8Clamp (channel c (body x y)) = b) →
  scan w h body (new_Uint8ClampedArray (length d)) = d.
Proof.
  intros Hlen Hbody. apply list_eq. intros k.
  destruct (decide (k < length d)) as [Hk|Hk].
  - destruct (sample_position w h k) as (x & y & c & Hx & Hy & Hc & ->); [lia|].
    rewrite scan_lookup;
      [|done|done|done|unfold new_Uint8ClampedArray; rewrite length_replicate; lia].
    destruct (lookup_lt_is_Some_2 d _ Hk) as [b Hb].
    rewrite Hb. f_equal. by apply Hbody.
  - rewrite !lookup_ge_None_2; [done|lia|].
    rewrite length_scan. unfold new_Uint8ClampedArray.
    rewrite length_replicate. lia.
Qed.

Lemma clamp_coord_id (limit x : nat) (k : Z) :
  x < limit → k = 0%Z → clamp_coord limit (Z.of_nat x + k) = x.
Proof. intros Hx ->. unfold clamp_coord. lia. Qed.

(** ** Median *)

(** The median filter of size 1 returns the image it is given. *)
Theorem applyMedianFilter_size_1 (img : ImageData) :
  valid_ImageData img → applyMedianFilter img 1 = Some img.
Proof.
  intros Hvalid. pose proof Hvalid as (Hw & Hh & Hlen).
  unfold applyMedianFilter. change (1 / 2) with 0.
  rewrite scan_reproduces; [by apply ImageData_new_valid|done|].
  intros x y c b Hx Hy Hc Hb.
  unfold median_values.
  cbn [window offsets seq map flat_map app Nat.mul Nat.add].
  change (Z.of_nat 0 - Z.of_nat 0)%Z with 0%Z.
  rewrite !(clamp_coord_id (width img) x) by done.
  rewrite !(clamp_coord_id (height img) y) by done.
  destruct c as [|[|[|[|c]]]]; [..|lia].
  - rewrite Nat.add_0_r in *. rewrite Hb. apply ToUint8Clamp_of_byte.
  - destruct (data img !! ((y * width img + x) * 4 + 0)); cbn;
      rewrite Hb; apply ToUint8Clamp_of_byte.
  - destruct (data img !! ((y * width img + x) * 4 + 0)); cbn;
      rewrite Hb; apply ToUint8Clamp_of_byte.
  - cbn [channel]. by apply rd_lookup.
Qed.

(** Sorting samples. *)

Lemma insert_sorted_filter (P : byte → bool) (b : byte) (l : list byte) :
  length (List.filter P (insert_sorted b l))
  = length (List.filter P (b :: l)).
Proof.
  induction l as [|c l IH]; [done|].
  cbn [insert_sorted]. destruct (Byte.to_N b <=? Byte.to_N c)%N; [done|].
  cbn [List.filter] in *.
  destruct (P c), (P b); cbn [length] in *; lia.
Qed.

Lemma sort_filter (P : byte → bool) (l : list byte) :
  length (List.filter P (foldr insert_sorted [] l))
  = length (List.filter P l).
Proof.
  induction l as [|b l IH]; [done|].
  cbn [foldr]. rewrite insert_sorted_filter. cbn [List.filter].
  destruct (P b); cbn [length]; lia.
Qed.

Lemma insert_sorted_elem (v b : byte) (l : list byte) :
  v ∈ insert_sorted b l ↔ v = b ∨ v ∈ l.
Proof.
  induction l as [|c l IH]; cbn [insert_sorted].
  - by rewrite elem_of_cons.
  - destruct (Byte.to_N b <=? Byte.to_N c)%N.
    + by rewrite elem_of_cons.
    + rewrite !elem_of_cons, IH. tauto.
Qed.

Lemma sort_elem (v : byte) (l : list byte) :
  v ∈ foldr insert_sorted [] l ↔ v ∈ l.
Proof.
  induction l as [|b l IH]; [done|].
  cbn [foldr]. by rewrite insert_sorted_elem, elem_of_cons, IH.
Qed.

Lemma length_insert_sorted (b : byte) (l : list byte) :
  length (insert_sorted b l) = S (length l).
Proof.
  induction l as [|c l IH]; [done|].
  cbn [insert_sorted]. destruct (Byte.to_N b <=? Byte.to_N c)%N; [done|].
  cbn [length]. by rewrite IH.
Qed.

Lemma length_sort (l : list byte) :
  length (foldr insert_sorted [] l) = length l.
Proof.
  induction l as [|b l IH]; [done|].
  cbn [foldr]. by rewrite length_insert_sorted, IH.
Qed.

Lemma insert_sorted_Forall (P : byte → Prop) (b : byte) (l : list byte) :
  P b → Forall P l → Forall P (insert_sorted b l).
Proof.
  intros Hb Hl. apply Forall_forall. intros v Hv.
  apply insert_sorted_elem in Hv as [->|Hv]; [done|].
  by apply (proj1 (Forall_forall P l) Hl).
Qed.

Lemma insert_sorted_sorted (b : byte) (l : list byte) :
  StronglySorted byte_le l → StronglySorted byte_le (insert_sorted b l).
Proof.
  induction 1 as [|c l Hl IH Hc]; cbn [insert_sorted].
  - by repeat constructor.
  - destruct (N.leb_spec (Byte.to_N b) (Byte.to_N c)) as [Hle|Hgt].
    + constructor; [by constructor|].
      constructor; [done|].
      eapply Forall_impl; [exact Hc|].
      intros v Hv. unfold byte_le in *. lia.
    + constructor; [done|].
      apply insert_sorted_Forall; [|done]. unfold byte_le. lia.
Qed.

Lemma sort_sorted (l : list byte) :
  StronglySorted byte_le (foldr insert_sorted [] l).
Proof.
  induction l as [|b l IH]; [constructor|].
  cbn [foldr]. by apply insert_sorted_sorted.
Qed.

Lemma count_filter_le (P : byte → bool) (l : list byte) :
  length (List.filter P l) ≤ length l.
Proof.
  induction l as [|b l IH]; [done|].
  cbn [List.filter]. destruct (P b); cbn [length]; lia.
Qed.

(** In a sorted list, at most [i] samples lie below the one at index [i]
    and at most those after it lie above. *)
Lemma sorted_rank (s : list byte) :
  StronglySorted byte_le s →
  ∀ i m, s !! i = Some m →
    count_below m s ≤ i ∧ count_above m s ≤ length s - i - 1.
Proof.
  unfold count_below, count_above.
  induction 1 as [|a s Hs IH Ha]; intros i m Hi; [done|].
  destruct i as [|i]; cbn [lookup list_lookup] in Hi.
  - injection Hi as ->. cbn [List.filter length].
    rewrite N.ltb_irrefl.
    assert (length (List.filter (λ v, (Byte.to_N v <? Byte.to_N m)%N) s) = 0)
      as ->.
    { clear IH Hs. induction Ha as [|c s Hc Ha IHa]; [done|].
      cbn [List.filter]. unfold byte_le in Hc.
      destruct (N.ltb_spec (Byte.to_N c) (Byte.to_N m)); [lia|done]. }
    split; [lia|].
    pose proof (count_filter_le (λ v, (Byte.to_N m <? Byte.to_N v)%N) s). lia.
  - destruct (IH i m Hi) as [Hb Hab].
    assert (byte_le a m) as Ham.
    { apply (proj1 (Forall_forall _ _) Ha). by eapply list_elem_of_lookup_2. }
    pose proof (lookup_lt_Some _ _ _ Hi).
    cbn [List.filter length]. unfold byte_le in Ham.
    destruct (N.ltb_spec (Byte.to_N m) (Byte.to_N a)); [lia|].
    destruct (N.ltb_spec (Byte.to_N a) (Byte.to_N m)); cbn [length]; lia.
Qed.

(** The window of a well-formed image holds a sample at every tap. *)
Lemma median_values_Some (img : ImageData) (half x y c : nat) :
  valid_ImageData img → c < 4 →
  median_values (data img) (width img) (height img) half x y c
  = map Some (window_samples (data img) (width img) (height img) half x y c)
  ∧ length (window_samples (data img) (width img) (height img) half x y c)
    = (2 * half + 1) * (2 * half + 1).
Proof.
  intros (Hw & Hh & Hlen) Hc. unfold window_samples, median_values.
  rewrite <- (length_offsets half), <- (length_window (offsets half)).
  induction (window (offsets half)) as [|[kx ky] taps [IH1 IH2]]; [done|].
  cbn [map omap list_omap length].
  pose proof (clamp_coord_lt (width img) (Z.of_nat x + kx) Hw).
  pose proof (clamp_coord_lt (height img) (Z.of_nat y + ky) Hh).
  destruct (lookup_lt_is_Some_2 (data img)
    ((clamp_coord (height img) (Z.of_nat y + ky) * width img
      + clamp_coord (width img) (Z.of_nat x + kx)) * 4 + c)) as [b Hb]; [nia|].
  rewrite Hb. cbn [map length]. rewrite IH2. split; [|done].
  f_equal. exact IH1.
Qed.

Lemma sort_numeric_Some (vals : list byte) :
  sort_numeric (map Some vals) = map Some (foldr insert_sorted [] vals).
Proof.
  unfold sort_numeric.
  assert (omap (λ v, v) (map Some vals) = vals) as ->.
  { induction vals as [|b vals IH]; [done|]. cbn. by rewrite IH. }
  assert (filter (λ v : option byte, v = None) (map Some vals) = []) as ->.
  { induction vals as [|b vals IH]; [done|].
    cbn [map]. rewrite filter_cons_False; done. }
  apply app_nil_r.
Qed.

(** The median filter stores the median: for a well-formed image, any
    kernel size, every pixel and each colour channel, the stored sample is
    one of the samples of the window (all (2 * half + 1)^2 of them are
    read), at most half of them are smaller and at most half of them are
    larger. *)
Theorem applyMedianFilter_median (img : ImageData) (kernelSize x y c : nat) :
  valid_ImageData img → x < width img → y < height img → c < 3 →
  let vals := window_samples (data img) (width img) (height img)
                             (kernelSize / 2) x y c in
  ∃ out m,
    applyMedianFilter img kernelSize = Some out
    ∧ data out !! ((y * width img + x) * 4 + c) = Some m
    ∧ length vals = (2 * (kernelSize / 2) + 1) * (2 * (kernelSize / 2) + 1)
    ∧ m ∈ vals
    ∧ count_below m vals ≤ length vals / 2
    ∧ count_above m vals ≤ length vals / 2.
Proof.
  intros Hvalid Hx Hy Hc vals. pose proof Hvalid as (Hw & Hh & Hlen).
  set (half := kernelSize / 2) in *.
  unfold applyMedianFilter. fold half.
  rewrite ImageData_new_same_length;
    [|done|by rewrite length_scan; apply length_replicate].
  destruct (median_values_Some img half x y c Hvalid) as [Hvals Hn]; [lia|].
  fold vals in Hvals, Hn.
  set (s := foldr insert_sorted [] vals).
  assert (length s = length vals) as Hs by apply length_sort.
  assert (length vals / 2 < length s) as Hmed.
  { rewrite Hs. apply Nat.div_lt; lia. }
  destruct (lookup_lt_is_Some_2 s _ Hmed) as [m Hm].
  eexists _, m. split; [reflexivity|]. cbn [data].
  split.
  { rewrite scan_lookup;
      [|done|done|lia|unfold new_Uint8ClampedArray; rewrite length_replicate; lia].
    f_equal.
    assert (∀ c', c' < 3 →
      length (sort_numeric
                (median_values (data img) (width img) (height img) half x y c'))
      = length vals) as Hlens.
    { intros c' Hc'.
      destruct (median_values_Some img half x y c' Hvalid) as [-> Hn']; [lia|].
      rewrite sort_numeric_Some, length_map, length_sort. lia. }
    rewrite (Hlens 0) by lia.
    assert (sample_at
              (sort_numeric
                 (median_values (data img) (width img) (height img) half x y c))
              (length vals / 2) = of_byte m) as Hsample.
    { rewrite Hvals, sort_numeric_Some. unfold sample_at.
      rewrite list_lookup_fmap. fold s. by rewrite Hm. }
    destruct c as [|[|[|c]]]; [..|lia]; cbn [channel];
      rewrite Hsample; apply ToUint8Clamp_of_byte. }
  split; [exact Hn|].
  split; [by apply sort_elem, list_elem_of_lookup_2 with (length vals / 2)|].
  destruct (sorted_rank s (sort_sorted vals) _ m Hm) as [Hb Ha].
  unfold count_below, count_above in *. unfold s in Hb, Ha.
  rewrite sort_filter in Hb, Ha. rewrite length_sort in Ha.
  split; [exact Hb|].
  assert (length vals - length vals / 2 - 1 ≤ length vals / 2); [|lia].
  pose proof (Nat.div_mod_eq (length vals) 2).
  pose proof (Nat.mod_upper_bound (length vals) 2). lia.
Qed.

(** ** Scans that copy the alpha channel *)

Lemma scan_alpha (img : ImageData) body :
  valid_ImageData img →
  (∀ x y, channel 3 (body x y)
          = rd (data img) ((y * width img + x) * 4 + 3)) →
  ∃ out,
    ImageData_new
      (scan (width img) (height img) body
            (new_Uint8ClampedArray (length (data img))))
      (width img) (height img) = Some out
    ∧ width out = width img ∧ height out = height img
    ∧ ∀ x y, x < width img → y < height img →
        data out !! ((y * width img + x) * 4 + 3)
        = data img !! ((y * width img + x) * 4 + 3).
Proof.
  intros Hvalid Hbody.
  rewrite ImageData_new_same_length;
    [|done|by rewrite length_scan; apply length_replicate].
  eexists. split; [reflexivity|]. cbn [data width height]. repeat split.
  intros x y Hx Hy. destruct Hvalid as (Hw & Hh & Hlen).
  rewrite scan_lookup;
    [|done|done|lia|unfold new_Uint8ClampedArray; rewrite length_replicate; lia].
  rewrite Hbody.
  destruct (lookup_lt_is_Some_2 (data img) ((y * width img + x) * 4 + 3))
    as [b Hb]; [nia|].
  rewrite Hb. f_equal. by apply rd_lookup.
Qed.

(** Dust and scratches (the median filter of size 3) and the oil painting
    return an image of the same size whose alpha samples are the
    source's. *)
Theorem rank_filters_keep_alpha (img : ImageData) :
  valid_ImageData img →
  ∀ filter, filter ∈ [applyDustAndScratches; applyOilPainting] →
    ∃ out, filter img = Some out
           ∧ width out = width img ∧ height out = height img
           ∧ ∀ x y, x < width img → y < height img →
               data out !! ((y * width img + x) * 4 + 3)
               = data img !! ((y * width img + x) * 4 + 3).
Proof.
  intros Hvalid filter Hin.
  apply elem_of_cons in Hin as [->|Hin].
  { unfold applyDustAndScratches, applyMedianFilter.
    by apply scan_alpha. }
  apply elem_of_cons in Hin as [->|Hin].
  { unfold applyOilPainting, applyOilPaintingFilter.
    by apply scan_alpha. }
  by apply elem_of_nil in Hin.
Qed.

(** ** The identity kernel *)

Lemma byte_times_0 (b : byte) : (of_byte b * 0)%float = 0%float.
Proof. destruct b; vm_compute; reflexivity. Qed.

Lemma byte_plus_0 (b : byte) : (of_byte b + 0)%float = of_byte b.
Proof. destruct b; vm_compute; reflexivity. Qed.

Lemma zero_plus_byte (b : byte) : (0 + of_byte b * 1)%float = of_byte b.
Proof. destruct b; vm_compute; reflexivity. Qed.

Lemma clamped_byte (b : byte) :
  ToUint8Clamp (Math_max 0 (Math_min 255 (of_byte b))) = b.
Proof. destruct b; vm_compute; reflexivity. Qed.

Section IdentityKernel.

Variable img : ImageData.
Hypothesis Hvalid : valid_ImageData img.

Let identity_kernel : list float := [0; 0; 0; 0; 1; 0; 0; 0; 0]%float.

(** A sample of the image at a clamped tap. *)
Lemma tap_sample (x y : nat) (kx ky : Z) (c : nat) :
  c < 4 →
  ∃ b, rd (data img)
          ((clamp_coord (height img) (Z.of_nat y + ky) * width img
            + clamp_coord (width img) (Z.of_nat x + kx)) * 4 + c)
       = of_byte b.
Proof.
  intros Hc. destruct Hvalid as (Hw & Hh & Hlen).
  pose proof (clamp_coord_lt (width img) (Z.of_nat x + kx) Hw).
  pose proof (clamp_coord_lt (height img) (Z.of_nat y + ky) Hh).
  unfold rd.
  destruct (lookup_lt_is_Some_2 (data img)
    ((clamp_coord (height img) (Z.of_nat y + ky) * width img
      + clamp_coord (width img) (Z.of_nat x + kx)) * 4 + c)) as [b ->]; [nia|].
  by exists b.
Qed.

(** A tap of weight 0 leaves accumulators that are 0 or a sample. *)
Lemma settled_plus_0 (a : float) (b : byte) :
  settled a → (a + of_byte b * 0)%float = a.
Proof.
  intros [->|[b' ->]]; rewrite byte_times_0; [reflexivity|apply byte_plus_0].
Qed.

Lemma conv_tap_weight_0 (x y kx ky : nat) (r g b : float) :
  elem identity_kernel (ky * 3 + kx) = 0%float →
  settled r → settled g → settled b →
  conv_tap (data img) (width img) (height img) identity_kernel 3 1 x y
           (r, g, b) (kx, ky) = (r, g, b).
Proof.
  intros Hk Hr Hg Hb. unfold conv_tap. rewrite Hk.
  destruct (tap_sample x y (Z.of_nat kx - Z.of_nat 1) (Z.of_nat ky - Z.of_nat 1) 0)
    as [b0 H0]; [lia|].
  destruct (tap_sample x y (Z.of_nat kx - Z.of_nat 1) (Z.of_nat ky - Z.of_nat 1) 1)
    as [b1 H1]; [lia|].
  destruct (tap_sample x y (Z.of_nat kx - Z.of_nat 1) (Z.of_nat ky - Z.of_nat 1) 2)
    as [b2 H2]; [lia|].
  rewrite Nat.add_0_r in H0. rewrite !Z.add_sub_assoc in H0, H1, H2.
  rewrite H0, H1, H2.
  by rewrite !settled_plus_0.
Qed.

Lemma identity_kernel_pixel (x y : nat) :
  x < width img → y < height img →
  fold_left (conv_tap (data img) (width img) (height img) identity_kernel 3 1 x y)
            (window (seq 0 3)) (0, 0, 0)%float
  = (rd (data img) ((y * width img + x) * 4),
     rd (data img) ((y * width img + x) * 4 + 1),
     rd (data img) ((y * width img + x) * 4 + 2)).
Proof.
  intros Hx Hy.
  cbn [window seq flat_map map app fold_left].
  rewrite !conv_tap_weight_0 by (reflexivity || by left).
  destruct (tap_sample x y 0 0 0) as [b0 H0]; [lia|].
  destruct (tap_sample x y 0 0 1) as [b1 H1]; [lia|].
  destruct (tap_sample x y 0 0 2) as [b2 H2]; [lia|].
  rewrite !(clamp_coord_id _ _ 0) in H0, H1, H2 by done.
  rewrite Nat.add_0_r in H0.
  assert (conv_tap (data img) (width img) (height img) identity_kernel 3 1 x y
                   (0, 0, 0)%float (1, 1)
          = (of_byte b0, of_byte b1, of_byte b2)) as ->.
  { unfold conv_tap.
    change (Z.of_nat x + Z.of_nat 1 - Z.of_nat 1)%Z with (Z.of_nat x + 1 - 1)%Z.
    change (Z.of_nat y + Z.of_nat 1 - Z.of_nat 1)%Z with (Z.of_nat y + 1 - 1)%Z.
    replace (Z.of_nat x + 1 - 1)%Z with (Z.of_nat x + 0)%Z by lia.
    replace (Z.of_nat y + 1 - 1)%Z with (Z.of_nat y + 0)%Z by lia.
    rewrite !(clamp_coord_id _ _ 0) by done.
    rewrite H0, H1, H2.
    change (elem identity_kernel (1 * 3 + 1)) with 1%float.
    by rewrite !zero_plus_byte. }
  rewrite !conv_tap_weight_0 by (reflexivity || (right; by eexists)).
  by rewrite H0, H1, H2.
Qed.

End IdentityKernel.

(** The convolution with the 3 x 3 identity kernel returns the image it
    is given. *)
Theorem applyConvolution_identity_kernel (img : ImageData) :
  valid_ImageData img →
  applyConvolution img [0; 0; 0; 0; 1; 0; 0; 0; 0]%float 3 = Some img.
Proof.
  intros Hvalid. pose proof Hvalid as (Hw & Hh & Hlen).
  unfold applyConvolution. change (3 / 2) with 1.
  rewrite scan_reproduces; [by apply ImageData_new_valid|done|].
  intros x y c b Hx Hy Hc Hb.
  rewrite (identity_kernel_pixel img Hvalid x y Hx Hy).
  assert (rd (data img) ((y * width img + x) * 4 + c) = of_byte b) as Hrd
    by (unfold rd; by rewrite Hb).
  destruct c as [|[|[|[|c]]]]; [..|lia]; cbn [channel].
  - rewrite Nat.add_0_r in Hrd. rewrite Hrd. apply clamped_byte.
  - rewrite Hrd. apply clamped_byte.
  - rewrite Hrd. apply clamped_byte.
  - rewrite Hrd. apply ToUint8Clamp_of_byte.
Qed.

(** ** Sketch *)

Lemma blocks_invert_lookup (k : nat) :
  ∀ d : list byte, 4 * k + 3 < length d →
    (∀ c, c < 3 →
       blocks invert_step d !! (4 * k + c) = inv <$> d !! (4 * k + c))
    ∧ blocks invert_step d !! (4 * k + 3) = d !! (4 * k + 3).
Proof.
  induction k as [|k IH]; intros d Hlen.
  - destruct d as [|r [|g [|b [|a rest]]]]; simpl in Hlen; try lia.
    split; [|done]. intros [|[|[|c]]] Hc; [done..|lia].
  - destruct d as [|r [|g [|b [|a rest]]]]; simpl in Hlen; try lia.
    destruct (IH rest) as [H012 H3]; [lia|].
    change (blocks invert_step (r :: g :: b :: a :: rest))
      with (inv r :: inv g :: inv b :: a :: blocks invert_step rest).
    replace (4 * S k) with (S (S (S (S (4 * k))))) by lia.
    split; [|exact H3]. intros c Hc. by apply H012.
Qed.

(** On samples whose colour channels agree, the three sums of a
    convolution agree. *)
Lemma conv_fold_gray (d : list byte) (w h : nat) kernel
    (kernelSize half x y : nat) (taps : list (nat * nat)) :
  0 < w → 0 < h →
  (∀ px py, px < w → py < h →
     rd d ((py * w + px) * 4 + 1) = rd d ((py * w + px) * 4)
     ∧ rd d ((py * w + px) * 4 + 2) = rd d ((py * w + px) * 4)) →
  ∀ a, ∃ v,
    fold_left (conv_tap d w h kernel kernelSize half x y) taps (a, a, a)
    = (v, v, v).
Proof.
  intros Hw Hh Hgray. induction taps as [|[kx ky] taps IH]; intros a.
  - by exists a.
  - cbn [fold_left]. unfold conv_tap at 2.
    destruct (Hgray
      (clamp_coord w (Z.of_nat x + Z.of_nat kx - Z.of_nat half))
      (clamp_coord h (Z.of_nat y + Z.of_nat ky - Z.of_nat half)))
      as [-> ->]; [by apply clamp_coord_lt..|].
    apply IH.
Qed.

(** The sketch (grayscale, edge detection, invert) returns an image of
    the same size in which the three colour samples of every pixel are
    equal and the alpha sample is the source's. *)
Theorem applySketch_gray (img : ImageData) :
  valid_ImageData img →
  ∃ out, applySketch img = Some out
    ∧ width out = width img ∧ height out = height img
    ∧ ∀ x y, x < width img → y < height img →
        ∃ v, data out !! ((y * width img + x) * 4) = Some v
             ∧ data out !! ((y * width img + x) * 4 + 1) = Some v
             ∧ data out !! ((y * width img + x) * 4 + 2) = Some v
             ∧ data out !! ((y * width img + x) * 4 + 3)
               = data img !! ((y * width img + x) * 4 + 3).
Proof.
  intros Hvalid. pose proof Hvalid as (Hw & Hh & Hlen).
  unfold applySketch, applyEdgeDetectFilter, applyConvolution.
  cbn [data width height]. change (3 / 2) with 1.
  set (gray := applyGrayscale (data img)).
  assert (length gray = length (data img)) as Hglen
    by (apply (in_place_filter_keeps (λ _, 0%float) applyGrayscale);
        constructor).
  assert (∀ px py, px < width img → py < height img →
            ∃ v, gray !! ((py * width img + px) * 4) = Some v
                 ∧ gray !! ((py * width img + px) * 4 + 1) = Some v
                 ∧ gray !! ((py * width img + px) * 4 + 2) = Some v
                 ∧ gray !! ((py * width img + px) * 4 + 3)
                   = data img !! ((py * width img + px) * 4 + 3)) as Hgray.
  { intros px py Hpx Hpy.
    rewrite (Nat.mul_comm _ 4). apply grayscale_pixel_gray. nia. }
  rewrite ImageData_new_same_length;
    [|done|by rewrite length_scan, Hglen; apply length_replicate].
  cbn [mbind option_bind data width height].
  eexists. split; [reflexivity|]. cbn [data width height]. repeat split.
  intros x y Hx Hy.
  set (edge := scan _ _ _ _).
  assert (length edge = length (data img)) as Helen.
  { unfold edge. rewrite length_scan. unfold new_Uint8ClampedArray.
    by rewrite length_replicate. }
  destruct (conv_fold_gray gray (width img) (height img)
              [0; 1; 0; 1; -4; 1; 0; 1; 0]%float 3 1 x y (window (seq 0 3))
              Hw Hh) with (a := 0%float) as [s Hs].
  { intros px py Hpx Hpy.
    destruct (Hgray px py Hpx Hpy) as (v & H0 & H1 & H2 & _).
    unfold rd. by rewrite H0, H1, H2. }
  assert (∀ c, c < 4 →
            edge !! ((y * width img + x) * 4 + c)
            = Some (ToUint8Clamp
                      (channel c
                         (Math_max 0 (Math_min 255 s),
                          Math_max 0 (Math_min 255 s),
                          Math_max 0 (Math_min 255 s),
                          rd gray ((y * width img + x) * 4 + 3))))) as Hedge.
  { intros c Hc. unfold edge.
    rewrite scan_lookup;
      [|done|done|done|unfold new_Uint8ClampedArray; rewrite length_replicate; lia].
    by rewrite Hs. }
  rewrite applyInvert_blocks.
  destruct (blocks_invert_lookup (y * width img + x) edge) as [H012 H3];
    [nia|].
  rewrite (Nat.mul_comm 4) in H012, H3.
  exists (inv (ToUint8Clamp (Math_max 0 (Math_min 255 s)))).
  pose proof (H012 0) as E0. rewrite Nat.add_0_r in E0.
  pose proof (Hedge 0) as F0. rewrite Nat.add_0_r in F0.
  rewrite E0, F0, (H012 1), (Hedge 1), (H012 2), (Hedge 2), H3, (Hedge 3)
    by lia.
  cbn [channel fmap option_fmap option_map]. repeat split.
  destruct (Hgray x y Hx Hy) as (v & _ & _ & _ & Ha).
  destruct (lookup_lt_is_Some_2 (data img) ((y * width img + x) * 4 + 3))
    as [b Hb]; [nia|].
  rewrite Hb in Ha |- *. f_equal. by apply rd_lookup.
Qed.

(** ** Finding a layer *)

(** [findIndex] returns -1 exactly when no layer has the id; otherwise it
    returns the index of the first layer that has it. *)
Lemma findIndex_spec (layerId : string) (ls : list Layer) :
  (findIndex layerId ls = (-1)%Z ∧ ∀ l, l ∈ ls → id l ≠ layerId)
  ∨ ∃ (i : nat) (l : Layer),
      findIndex layerId ls = Z.of_nat i
      ∧ ls !! i = Some l ∧ id l = layerId
      ∧ ∀ j l', j < i → ls !! j = Some l' → id l' ≠ layerId.
Proof.
  induction ls as [|l0 ls IH]; cbn [findIndex].
  - left. split; [done|]. intros l Hl. by apply elem_of_nil in Hl.
  - destruct (String.eqb_spec (id l0) layerId) as [Heq|Hne].
    + right. exists 0, l0. repeat split; [done|]. intros j l' Hj. lia.
    + destruct IH as [[Hm Hnone]|(i & l & Hi & Hl & Hid & Hfirst)].
      * left. rewrite Hm. split; [done|].
        intros l Hl. apply elem_of_cons in Hl as [->|Hl]; [done|by apply Hnone].
      * right. exists (S i), l. rewrite Hi.
        destruct (Z.ltb_spec (Z.of_nat i) 0); [lia|].
        repeat split; [lia|done|done|].
        intros [|j] l' Hj Hl'; cbn in Hl'.
        -- by injection Hl' as <-.
        -- apply (Hfirst j l'); [lia|done].
Qed.

Lemma findIndex_range (layerId : string) (ls : list Layer) :
  (-1 ≤ findIndex layerId ls < Z.of_nat (length ls))%Z.
Proof.
  destruct (findIndex_spec layerId ls)
    as [[-> _]|(i & l & -> & Hl & _)]; [lia|].
  apply lookup_lt_Some in Hl. lia.
Qed.

(** ** The active index *)

Section ActiveIndex.

Variable supported : string → bool.
Variable drawImage : Canvas → Canvas → float → float → list byte.

Lemma length_splice_in {A} (i : nat) (x : A) (l : list A) :
  length (splice_in i x l) = S (length l).
Proof.
  unfold splice_in. rewrite length_app. cbn [length].
  rewrite length_take, length_drop. lia.
Qed.

Lemma length_delete_lt {A} (i : nat) (l : list A) :
  i < length l → length (delete i l) = length l - 1.
Proof.
  intros Hi. apply length_delete. by apply lookup_lt_is_Some_2.
Qed.

(** The operations of [Document] that add, move, select, merge, flatten
    or duplicate layers keep the active index on a layer. *)
Theorem active_index_kept (doc : Document) :
  valid_active doc →
  (∀ layer, valid_active (addLayer doc layer))
  ∧ (∀ layerId newIndex, valid_active (moveLayer doc layerId newIndex))
  ∧ (∀ layerId, valid_active (setActiveLayer doc layerId))
  ∧ (∀ layerId, valid_active (mergeDown supported drawImage doc layerId))
  ∧ (∀ newId, valid_active (flattenImage supported drawImage newId doc))
  ∧ (∀ newId layerId,
       valid_active (duplicateLayer drawImage newId doc layerId).1).
Proof.
  intros Hvalid. unfold valid_active in *.
  split; [|split; [|split; [|split; [|split]]]].
  - intros layer. unfold addLayer. cbn. rewrite length_app. cbn. lia.
  - intros layerId newIndex. unfold moveLayer.
    pose proof (findIndex_range layerId (layers doc)).
    destruct (Z.ltb_spec (-1) (findIndex layerId (layers doc))); [|exact Hvalid].
    destruct (Z.leb_spec 0 newIndex); [|exact Hvalid].
    destruct (Z.ltb_spec newIndex (Z.of_nat (length (layers doc))));
      [|exact Hvalid].
    cbn [andb].
    destruct (layers doc !! _) as [layer|] eqn:Hl; [|exact Hvalid]. cbn.
    rewrite length_splice_in, length_delete_lt; lia.
  - intros layerId. unfold setActiveLayer.
    pose proof (findIndex_range layerId (layers doc)).
    destruct (Z.ltb_spec (-1) (findIndex layerId (layers doc))); [|exact Hvalid].
    cbn. lia.
  - intros layerId. unfold mergeDown.
    pose proof (findIndex_range layerId (layers doc)).
    destruct (Z.ltb_spec 0 (findIndex layerId (layers doc))); [|exact Hvalid].
    destruct (layers doc !! _) as [top|]; [|exact Hvalid].
    destruct (layers doc !! _) as [bottom|]; [|exact Hvalid]. cbn.
    rewrite length_delete_lt; rewrite length_insert; lia.
  - intros newId. unfold flattenImage.
    destruct (length (layers doc) <=? 1); [exact Hvalid|]. cbn. lia.
  - intros newId layerId. unfold duplicateLayer.
    destruct (getLayer doc layerId); [|exact Hvalid].
    cbn. rewrite length_app. cbn. lia.
Qed.

End ActiveIndex.

(** ** Removing layers *)

Lemma filter_delete_false {A} (P : A → bool) (l : list A) (i : nat) (x : A) :
  l !! i = Some x → P x = false →
  List.filter P (delete i l) = List.filter P l.
Proof.
  revert i. induction l as [|a l IH]; intros i Hi Hx; [done|].
  destruct i as [|i]; cbn [lookup list_lookup] in Hi.
  - injection Hi as ->.
    change (delete 0 (x :: l)) with l. cbn [List.filter]. by rewrite Hx.
  - change (delete (S i) (a :: l)) with (a :: delete i l).
    cbn [List.filter]. by rewrite (IH i Hi Hx).
Qed.

Lemma filter_nonempty {A} (P : A → bool) (l : list A) (x : A) :
  x ∈ l → P x = true → List.filter P l ≠ [].
Proof.
  intros Hin Hx Hnil.
  assert (In x (List.filter P l)) as Hf
    by (apply filter_In; split; [by apply list_elem_of_In|done]).
  by rewrite Hnil in Hf.
Qed.

(** [removeLayer] never removes a background layer: the background layers
    of the document are the same afterwards, whatever id is given. So a
    document that has a background layer is never emptied, and its active
    index stays on a layer. *)
Theorem removeLayer_keeps_background (doc : Document) (layerId : string) :
  List.filter isBackground (layers (removeLayer doc layerId))
  = List.filter isBackground (layers doc)
  ∧ (valid_active doc →
     (∃ l, l ∈ layers doc ∧ isBackground l = true) →
     layers (removeLayer doc layerId) ≠ []
     ∧ valid_active (removeLayer doc layerId)).
Proof.
  assert (List.filter isBackground (layers (removeLayer doc layerId))
          = List.filter isBackground (layers doc)) as Hbg.
  { unfold removeLayer.
    destruct (-1 <? findIndex layerId (layers doc))%Z; [|done].
    destruct (layers doc !! _) as [layer|] eqn:Hl; [|done].
    destruct (isBackground layer) eqn:Hb; [done|]. cbn.
    by apply filter_delete_false with layer. }
  split; [exact Hbg|].
  intros Hvalid (l & Hin & Hl).
  assert (layers (removeLayer doc layerId) ≠ []) as Hne.
  { intros Hnil. rewrite Hnil in Hbg.
    by apply (filter_nonempty isBackground (layers doc) l Hin Hl). }
  split; [exact Hne|].
  unfold valid_active in *. revert Hne. unfold removeLayer.
  destruct (-1 <? findIndex layerId (layers doc))%Z; [|done].
  destruct (layers doc !! _) as [layer|] eqn:Hlk; [|done].
  destruct (isBackground layer); [done|]. cbn.
  intros Hne.
  assert (0 < length (delete (Z.to_nat (findIndex layerId (layers doc)))
                             (layers doc)))
    by (destruct (delete _ _); [done|cbn; lia]).
  destruct (Z.leb_spec
    (Z.of_nat (length (delete (Z.to_nat (findIndex layerId (layers doc)))
                              (layers doc))))
    (activeLayerIndex doc)); lia.
Qed.

Section Removal.

Variable supported : string → bool.
Variable drawImage : Canvas → Canvas → float → float → list byte.

(** A flattened document loses that protection: the layer that
    [flattenImage] creates is not a background layer, and removing it
    leaves a document with no layer, the active index -1 and no active
    layer. *)
Theorem removeLayer_after_flattenImage (newId : string) (doc : Document) :
  2 ≤ length (layers doc) →
  let doc' :=
    removeLayer (flattenImage supported drawImage newId doc) newId in
  layers doc' = [] ∧ activeLayerIndex doc' = (-1)%Z
  ∧ getActiveLayer doc' = None.
Proof.
  intros Hlen doc'. unfold doc', flattenImage.
  destruct (Nat.leb_spec (length (layers doc)) 1); [lia|].
  unfold removeLayer. cbn. rewrite String.eqb_refl. cbn. done.
Qed.

Lemma findIndex_NoDup (ls : list Layer) (i : nat) (l : Layer) :
  NoDup (map id ls) → ls !! i = Some l →
  findIndex (id l) ls = Z.of_nat i.
Proof.
  revert i. induction ls as [|l0 ls IH]; intros i Hnd Hl; [done|].
  cbn [map] in Hnd. apply NoDup_cons in Hnd as [Hnotin Hnd].
  destruct i as [|i]; cbn in Hl.
  - injection Hl as ->. cbn. by rewrite String.eqb_refl.
  - cbn [findIndex].
    destruct (String.eqb_spec (id l0) (id l)) as [Heq|Hne].
    + exfalso. apply Hnotin. rewrite Heq.
      apply list_elem_of_fmap. exists l. split; [done|].
      by eapply list_elem_of_lookup_2.
    + rewrite (IH i Hnd Hl).
      destruct (Z.ltb_spec (Z.of_nat i) 0); lia.
Qed.

(** Deleting the active layer from the application never throws on a
    document whose active index is on a layer, never leaves the document
    without a layer, and keeps the active index on a layer. When the
    active layer is a background layer (and ids are distinct) nothing is
    deleted, whether or not the user confirmed. *)
Theorem deleteActiveLayer_safe (confirmed : bool) (doc : Document) :
  valid_active doc →
  ∃ doc',
    deleteActiveLayer confirmed doc = Some doc'
    ∧ layers doc' ≠ []
    ∧ valid_active doc'
    ∧ (NoDup (map id (layers doc)) →
       ∀ l, getActiveLayer doc = Some l → isBackground l = true →
            doc' = doc).
Proof.
  intros Hvalid. pose proof Hvalid as Hv. unfold valid_active in Hv.
  assert (layers doc ≠ []) as Hne by (destruct (layers doc); [cbn in Hv; lia|done]).
  unfold deleteActiveLayer.
  destruct (Nat.leb_spec (length (layers doc)) 1) as [Hle|Hgt].
  { exists doc. split; [done|]. split; [done|]. split; done. }
  unfold getActiveLayer.
  destruct (Z.leb_spec 0 (activeLayerIndex doc)); [|lia].
  destruct (lookup_lt_is_Some_2 (layers doc) (Z.to_nat (activeLayerIndex doc)))
    as [active Hactive]; [lia|].
  rewrite Hactive.
  destruct (isBackground active && negb confirmed) eqn:Hskip.
  { exists doc. split; [done|]. split; [done|]. split; done. }
  eexists. split; [reflexivity|].
  assert (layers (removeLayer doc (id active)) ≠ []
          ∧ valid_active (removeLayer doc (id active))) as [Hne' Hvalid'].
  { unfold removeLayer, valid_active.
    pose proof (findIndex_range (id active) (layers doc)).
    destruct (Z.ltb_spec (-1) (findIndex (id active) (layers doc))); [|done].
    destruct (layers doc !! Z.to_nat (findIndex _ _)) as [layer|] eqn:Hl;
      [|done].
    destruct (isBackground layer); [done|]. cbn.
    assert (length (delete (Z.to_nat (findIndex (id active) (layers doc)))
                           (layers doc)) = length (layers doc) - 1) as Hdel
      by (apply length_delete_lt; lia).
    split.
    - intros Hnil. rewrite Hnil in Hdel. cbn in Hdel. lia.
    - rewrite Hdel.
      destruct (Z.leb_spec (Z.of_nat (length (layers doc) - 1))
                           (activeLayerIndex doc)); lia. }
  split; [exact Hne'|]. split; [exact Hvalid'|].
  intros Hnd l [= <-] Hbg.
  unfold removeLayer.
  rewrite (findIndex_NoDup (layers doc) _ active Hnd Hactive).
  rewrite Nat2Z.id, Hactive, Hbg.
  by destruct (-1 <? _)%Z.
Qed.

End Removal.

(** ** Reordering, merging, flattening, duplicating *)

Section Restacking.

Variable supported : string → bool.
Variable drawImage : Canvas → Canvas → float → float → list byte.

(** [moveLayer] with the id of a layer and an index within the stack
    rearranges the layers without losing or repeating any: the layer is at
    the new index, which becomes the active index. *)
Theorem moveLayer_permutes (doc : Document) (layerId : string)
    (i : nat) (l : Layer) (newIndex : Z) :
  findIndex layerId (layers doc) = Z.of_nat i →
  layers doc !! i = Some l →
  (0 ≤ newIndex < Z.of_nat (length (layers doc)))%Z →
  let doc' := moveLayer doc layerId newIndex in
  layers doc' ≡ₚ layers doc
  ∧ layers doc' !! Z.to_nat newIndex = Some l
  ∧ activeLayerIndex doc' = newIndex
  ∧ saved doc' = false.
Proof.
  intros Hi Hl Hn doc'. unfold doc', moveLayer. rewrite Hi.
  destruct (Z.ltb_spec (-1) (Z.of_nat i)); [|lia].
  destruct (Z.leb_spec 0 newIndex); [|lia].
  destruct (Z.ltb_spec newIndex (Z.of_nat (length (layers doc)))); [|lia].
  cbn [andb]. rewrite Nat2Z.id, Hl. cbn.
  assert (length (delete i (layers doc)) = length (layers doc) - 1) as Hdel.
  { apply length_delete_lt. by eapply lookup_lt_Some. }
  repeat split.
  - unfold splice_in. rewrite <- Permutation_middle.
    rewrite take_drop. symmetry. by apply delete_Permutation.
  - unfold splice_in. apply list_lookup_middle.
    rewrite length_take. lia.
Qed.

(** [mergeDown] with the id of a layer that is not the bottom one removes
    exactly that layer from the sequence of ids (the layer below keeps its
    id), makes the layer below the active one and marks the document as
    modified. *)
Theorem mergeDown_upper_layer (doc : Document) (layerId : string) (i : nat) :
  findIndex layerId (layers doc) = Z.of_nat (S i) →
  let doc' := mergeDown supported drawImage doc layerId in
  map id (layers doc') = delete (S i) (map id (layers doc))
  ∧ length (layers doc') = length (layers doc) - 1
  ∧ activeLayerIndex doc' = Z.of_nat i
  ∧ saved doc' = false.
Proof.
  intros Hi doc'. unfold doc', mergeDown. rewrite Hi.
  pose proof (findIndex_range layerId (layers doc)) as Hrange.
  rewrite Hi in Hrange.
  destruct (Z.ltb_spec 0 (Z.of_nat (S i))); [|lia].
  rewrite Nat2Z.id.
  destruct (layers doc !! S i) as [top|] eqn:Htop;
    [|apply lookup_ge_None in Htop; lia].
  destruct (layers doc !! (S i - 1)) as [bottom|] eqn:Hbottom;
    [|apply lookup_ge_None in Hbottom; lia].
  cbn [layers activeLayerIndex saved set_layers].
  split; [|split; [|split]].
  - change (map id ?l) with (id <$> l).
    rewrite list_fmap_delete, list_fmap_insert. f_equal.
    apply list_insert_id. rewrite list_lookup_fmap, Hbottom. done.
  - rewrite length_delete_lt; rewrite length_insert; lia.
  - lia.
  - reflexivity.
Qed.

(** Flattening twice is flattening once: on the result of [flattenImage]
    a second [flattenImage] changes nothing. *)
Theorem flattenImage_twice (id1 id2 : string) (doc : Document) :
  flattenImage supported drawImage id2
    (flattenImage supported drawImage id1 doc)
  = flattenImage supported drawImage id1 doc.
Proof.
  unfold flattenImage at 2 3.
  destruct (Nat.leb_spec (length (layers doc)) 1) as [Hle|Hgt].
  - unfold flattenImage.
    by destruct (Nat.leb_spec (length (layers doc)) 1); [|lia].
  - reflexivity.
Qed.

Lemma getLayer_findIndex (doc : Document) (layerId : string) :
  getLayer doc layerId
  = if (findIndex layerId (layers doc) <? 0)%Z then None
    else layers doc !! Z.to_nat (findIndex layerId (layers doc)).
Proof.
  unfold getLayer. induction (layers doc) as [|l0 ls IH]; [done|].
  cbn [List.find findIndex].
  destruct (String.eqb (id l0) layerId); [done|].
  rewrite IH. pose proof (findIndex_range layerId ls).
  destruct (Z.ltb_spec (findIndex layerId ls) 0); [done|].
  destruct (Z.ltb_spec (findIndex layerId ls + 1) 0); [lia|].
  replace (Z.to_nat (findIndex layerId ls + 1))
    with (S (Z.to_nat (findIndex layerId ls))) by lia.
  done.
Qed.

(** [duplicateLayer] with an id that no layer has changes nothing and
    returns null. With the id of a layer it puts one new layer on top of
    the stack and makes it the active one: the copy carries the generated
    id and the name followed by " copy", keeps visibility, opacity, blend
    mode, lock and position, and is never a background layer, also when
    the layer copied is one. *)
Theorem duplicateLayer_copy (newId : string) (doc : Document)
    (layerId : string) :
  ((∀ l, l ∈ layers doc → id l ≠ layerId) →
   duplicateLayer drawImage newId doc layerId = (doc, None))
  ∧ (∀ i l,
       findIndex layerId (layers doc) = Z.of_nat i →
       layers doc !! i = Some l →
       ∃ d doc',
         duplicateLayer drawImage newId doc layerId = (doc', Some d)
         ∧ layers doc' = layers doc ++ [d]
         ∧ activeLayerIndex doc' = Z.of_nat (length (layers doc))
         ∧ id d = newId ∧ name d = name l +:+ " copy"
         ∧ isBackground d = false
         ∧ visible d = visible l ∧ opacity d = opacity l
         ∧ blendMode d = blendMode l ∧ locked d = locked l
         ∧ layer_x d = layer_x l ∧ layer_y d = layer_y l).
Proof.
  unfold duplicateLayer. rewrite getLayer_findIndex. split.
  - intros Hnone.
    destruct (findIndex_spec layerId (layers doc))
      as [[-> _]|(i & l & _ & Hl & Hid & _)]; [done|].
    exfalso. apply (Hnone l); [|done]. by eapply list_elem_of_lookup_2.
  - intros i l -> Hl.
    destruct (Z.ltb_spec (Z.of_nat i) 0); [lia|].
    rewrite Nat2Z.id, Hl.
    eexists _, _. split; [reflexivity|]. cbn.
    rewrite length_app. cbn. repeat split. lia.
Qed.

(** On a document whose active index is on a layer [getActiveLayer]
    returns that layer. *)
Lemma getActiveLayer_valid (doc : Document) :
  valid_active doc → is_Some (getActiveLayer doc).
Proof.
  unfold valid_active, getActiveLayer. intros Hv.
  destruct (Z.leb_spec 0 (activeLayerIndex doc)); [|lia].
  apply lookup_lt_is_Some_2. lia.
Qed.

End Restacking.

(** ** Recent files *)

Lemma NoDup_filter_bool {A} (P : A → bool) (l : list A) :
  NoDup l → NoDup (List.filter P l).
Proof.
  induction 1 as [|x l Hx Hnd IH]; [constructor|].
  cbn [List.filter]. destruct (P x); [|done].
  constructor; [|done]. intros Hin. apply Hx.
  apply list_elem_of_In in Hin. apply filter_In in Hin as [Hin _].
  by apply list_elem_of_In.
Qed.

Lemma elem_of_take_in {A} (x : A) (n : nat) (l : list A) :
  x ∈ take n l → x ∈ l.
Proof.
  intros H. apply elem_of_take in H as (i & Hi & _).
  by eapply list_elem_of_lookup_2.
Qed.

(** After [addToRecentFiles] the path is the first of the list, the list
    holds at most 10 paths, each of them the new one or one that was
    there, none twice if none was twice before; adding the same path
    again changes nothing. *)
Theorem addToRecentFiles_list (recentFiles : list string) (filePath : string) :
  let r := addToRecentFiles recentFiles filePath in
  r !! 0 = Some filePath
  ∧ length r ≤ 10
  ∧ (∀ path, path ∈ r → path = filePath ∨ path ∈ recentFiles)
  ∧ (NoDup recentFiles → NoDup r)
  ∧ addToRecentFiles r filePath = r.
Proof.
  intros r. unfold r, addToRecentFiles, maxRecentFiles.
  set (others := List.filter (λ path, negb (String.eqb path filePath))
                             recentFiles).
  assert (∀ path, path ∈ others → path ≠ filePath ∧ path ∈ recentFiles)
    as Hothers.
  { intros path Hin. apply list_elem_of_In, filter_In in Hin as [Hin Hne].
    split; [|by apply list_elem_of_In].
    intros ->. by rewrite String.eqb_refl in Hne. }
  split; [done|]. split; [rewrite length_take; lia|].
  split; [|split].
  - intros path Hin. cbn [take] in Hin.
    apply elem_of_cons in Hin as [->|Hin]; [by left|].
    right. apply Hothers. by eapply elem_of_take_in.
  - intros Hnd. cbn [take]. constructor.
    + intros Hin. apply elem_of_take_in in Hin.
      by destruct (Hothers _ Hin).
    + apply (sublist_NoDup _ others); [by apply NoDup_filter_bool|].
      apply sublist_take.
  - cbn [take List.filter]. rewrite String.eqb_refl. cbn [negb].
    assert (List.filter (λ path, negb (String.eqb path filePath))
                        (take 9 others) = take 9 others) as ->.
    { apply forallb_filter_id. apply forallb_forall. intros path Hin.
      apply list_elem_of_In, elem_of_take_in, Hothers in Hin as [Hne _].
      by destruct (String.eqb_spec path filePath). }
    by rewrite take_idemp.
Qed.

(** ** The history *)

Lemma length_slice_to {A} (l : list A) (e : Z) :
  (0 ≤ e ≤ Z.of_nat (length l))%Z → length (slice_to l e) = Z.to_nat e.
Proof.
  intros He. unfold slice_to. destruct (Z.ltb_spec e 0); [lia|].
  rewrite length_take. lia.
Qed.

(** A recorded state becomes the current and the last one: the states
    after the current index are dropped, nothing can be redone, the
    history stays within its size (the oldest state is dropped when it is
    full), and the index stays on a state. While recording is paused, or
    without an active document, nothing changes. *)
Theorem addState_records (hm : HistoryManager) (state : HistoryState) :
  valid_history hm →
  (isRecording hm = false → addState hm (Some state) = hm)
  ∧ addState hm None = hm
  ∧ (isRecording hm = true →
     let hm' := addState hm (Some state) in
     valid_history hm'
     ∧ state_at hm' (currentIndex hm') = Some state
     ∧ last (history hm') = Some state
     ∧ canRedo hm' = false
     ∧ length (history hm') ≤ Z.to_nat (currentIndex hm + 2)).
Proof.
  intros (Hidx & Hempty & Hmax & Hlen).
  split; [intros Hr; unfold addState; by rewrite Hr|].
  split; [unfold addState; by destruct (isRecording hm)|].
  intros Hrec hm'. unfold hm', addState. rewrite Hrec. cbn [negb].
  set (h := slice_to (history hm) (currentIndex hm + 1) ++ [state]).
  assert (length h = Z.to_nat (currentIndex hm + 2)) as Hh.
  { unfold h. rewrite length_app, length_slice_to by lia. cbn. lia. }
  assert (last h = Some state) as Hlast by (unfold h; apply last_snoc).
  destruct (Z.ltb_spec (maxHistorySize hm) (Z.of_nat (length h))) as [Hfull|Hfit].
  - cbn [history currentIndex maxHistorySize].
    assert (length (drop 1 h) = length h - 1) as Hd by apply length_drop.
    assert (last (drop 1 h) = Some state) as Hlast'.
    { rewrite last_lookup in Hlast |- *. rewrite lookup_drop, Hd.
      rewrite <- Hlast. f_equal. lia. }
    split; [|split; [|split; [|split]]].
    + unfold valid_history. cbn. rewrite Hd. repeat split; try lia.
    + unfold state_at. cbn.
      destruct (Z.leb_spec 0 (Z.of_nat (length h) - 1 - 1)); [|lia].
      rewrite last_lookup in Hlast'. rewrite <- Hlast', Hd. f_equal. lia.
    + exact Hlast'.
    + unfold canRedo. cbn. rewrite Hd. apply Z.ltb_ge. lia.
    + rewrite Hd. lia.
  - cbn [history currentIndex maxHistorySize].
    split; [|split; [|split; [|split]]].
    + unfold valid_history. cbn. repeat split; try lia.
    + unfold state_at. cbn.
      destruct (Z.leb_spec 0 (Z.of_nat (length h) - 1)); [|lia].
      rewrite last_lookup in Hlast. rewrite <- Hlast. f_equal. lia.
    + exact Hlast.
    + unfold canRedo. cbn. apply Z.ltb_ge. lia.
    + lia.
Qed.

(** Undo followed by redo, and redo followed by undo, come back to the
    same index of the same history and restore the state that was
    current; neither throws on a history whose index is on a state. *)
Theorem undo_redo (hm : HistoryManager) :
  valid_history hm →
  (canUndo hm = true →
   ∃ hm1 s1 hm2 s2,
     undo hm = Some (hm1, Some s1) ∧ redo hm1 = Some (hm2, Some s2)
     ∧ valid_history hm1
     ∧ state_at hm (currentIndex hm - 1) = Some s1
     ∧ state_at hm (currentIndex hm) = Some s2
     ∧ history hm2 = history hm ∧ currentIndex hm2 = currentIndex hm)
  ∧ (canRedo hm = true →
     ∃ hm1 s1 hm2 s2,
       redo hm = Some (hm1, Some s1) ∧ undo hm1 = Some (hm2, Some s2)
       ∧ valid_history hm1
       ∧ state_at hm (currentIndex hm + 1) = Some s1
       ∧ state_at hm (currentIndex hm) = Some s2
       ∧ history hm2 = history hm ∧ currentIndex hm2 = currentIndex hm).
Proof.
  intros (Hidx & Hempty & Hmax & Hlen). split.
  - intros Hcan. unfold canUndo in Hcan. apply Z.ltb_lt in Hcan.
    destruct (lookup_lt_is_Some_2 (history hm) (Z.to_nat (currentIndex hm - 1)))
      as [s1 Hs1]; [lia|].
    destruct (lookup_lt_is_Some_2 (history hm) (Z.to_nat (currentIndex hm)))
      as [s2 Hs2]; [lia|].
    assert (state_at hm (currentIndex hm - 1) = Some s1) as H1.
    { unfold state_at. by destruct (Z.leb_spec 0 (currentIndex hm - 1)); [|lia]. }
    assert (state_at hm (currentIndex hm) = Some s2) as H2.
    { unfold state_at. by destruct (Z.leb_spec 0 (currentIndex hm)); [|lia]. }
    eexists _, s1, _, s2.
    split.
    { unfold undo, canUndo, restore_at.
      destruct (Z.ltb_spec 0 (currentIndex hm)); [|lia]. cbn [negb].
      rewrite H1. reflexivity. }
    split.
    { unfold redo, canRedo, restore_at, state_at.
      cbn [history currentIndex maxHistorySize].
      destruct (Z.ltb_spec (currentIndex hm - 1)
                           (Z.of_nat (length (history hm)) - 1)); [|lia].
      cbn [negb].
      replace (currentIndex hm - 1 + 1)%Z with (currentIndex hm) by lia.
      destruct (Z.leb_spec 0 (currentIndex hm)); [|lia].
      rewrite Hs2. reflexivity. }
    split.
    { unfold valid_history. cbn. repeat split; try lia. }
    by repeat split.
  - intros Hcan. unfold canRedo in Hcan. apply Z.ltb_lt in Hcan.
    destruct (lookup_lt_is_Some_2 (history hm) (Z.to_nat (currentIndex hm + 1)))
      as [s1 Hs1]; [lia|].
    assert (0 ≤ currentIndex hm)%Z as Hnn.
    { destruct (Z.eq_dec (currentIndex hm) (-1)%Z) as [He|]; [|lia].
      rewrite (Hempty He) in Hcan. cbn in Hcan. lia. }
    destruct (lookup_lt_is_Some_2 (history hm) (Z.to_nat (currentIndex hm)))
      as [s2 Hs2]; [lia|].
    assert (state_at hm (currentIndex hm + 1) = Some s1) as H1.
    { unfold state_at. by destruct (Z.leb_spec 0 (currentIndex hm + 1)); [|lia]. }
    assert (state_at hm (currentIndex hm) = Some s2) as H2.
    { unfold state_at. by destruct (Z.leb_spec 0 (currentIndex hm)); [|lia]. }
    eexists _, s1, _, s2.
    split.
    { unfold redo, canRedo, restore_at.
      destruct (Z.ltb_spec (currentIndex hm)
                           (Z.of_nat (length (history hm)) - 1)); [|lia].
      cbn [negb]. rewrite H1. reflexivity. }
    split.
    { unfold undo, canUndo, restore_at, state_at.
      cbn [history currentIndex maxHistorySize].
      destruct (Z.ltb_spec 0 (currentIndex hm + 1)); [|lia].
      cbn [negb].
      replace (currentIndex hm + 1 - 1)%Z with (currentIndex hm) by lia.
      destruct (Z.leb_spec 0 (currentIndex hm)); [|lia].
      rewrite Hs2. reflexivity. }
    split.
    { unfold valid_history. cbn. repeat split; try lia. }
    by repeat split.
Qed.

Lemma trim_history_drop (max : Z) (h : list HistoryState) (i : Z) :
  (1 ≤ max)%Z →
  trim_history max h i
  = (drop (Z.to_nat (Z.of_nat (length h) - max)) h,
     (i - Z.of_nat (Z.to_nat (Z.of_nat (length h) - max)))%Z).
Proof.
  intros Hmax. revert i. induction h as [|s h IH]; intros i.
  - cbn [trim_history length].
    replace (Z.to_nat (Z.of_nat 0 - max)) with 0 by lia.
    cbn [drop]. f_equal. lia.
  - cbn [trim_history].
    destruct (Z.ltb_spec max (Z.of_nat (length (s :: h)))) as [Hlt|Hge].
    + rewrite IH. cbn [length] in *.
      replace (Z.to_nat (Z.of_nat (S (length h)) - max))
        with (S (Z.to_nat (Z.of_nat (length h) - max))) by lia.
      cbn [drop]. f_equal. lia.
    + cbn [length] in *.
      replace (Z.to_nat (Z.of_nat (S (length h)) - max)) with 0 by lia.
      cbn [drop]. f_equal. lia.
Qed.

(** [setMaxHistorySize] sets the size to at least 1 and keeps the newest
    states that fit. On a history that has states the index stays on a
    state (the oldest kept one when the current state was dropped); on an
    empty history the index becomes 0, where there is no state. *)
Theorem setMaxHistorySize_trims (hm : HistoryManager) (size : Z) :
  let hm' := setMaxHistorySize hm size in
  let dropped :=
    Z.to_nat (Z.of_nat (length (history hm)) - Z.max 1 size) in
  maxHistorySize hm' = Z.max 1 size
  ∧ history hm' = drop dropped (history hm)
  ∧ (Z.of_nat (length (history hm')) ≤ Z.max 1 size)%Z
  ∧ currentIndex hm' = Z.max 0 (currentIndex hm - Z.of_nat dropped)
  ∧ (valid_history hm → history hm ≠ [] → valid_history hm')
  ∧ (valid_history hm → history hm = [] →
     currentIndex hm' = 0%Z ∧ state_at hm' (currentIndex hm') = None).
Proof.
  intros hm' dropped. unfold hm', setMaxHistorySize.
  rewrite trim_history_drop by lia. fold dropped.
  cbn [history currentIndex maxHistorySize].
  assert (length (drop dropped (history hm))
          = length (history hm) - dropped) as Hd by apply length_drop.
  split; [done|]. split; [done|]. split; [lia|]. split; [done|]. split.
  - intros (Hidx & Hempty & Hmax & Hlen) Hne.
    assert (0 < length (history hm)) by (destruct (history hm); [done|cbn; lia]).
    unfold valid_history. cbn [history currentIndex maxHistorySize].
    rewrite Hd. repeat split; try lia.
  - intros (Hidx & Hempty & Hmax & Hlen) Hnil.
    rewrite Hnil in *. cbn in Hidx. unfold dropped. rewrite Hnil. cbn [length].
    split; [lia|]. unfold state_at. cbn.
    replace (Z.max 0 _) with 0%Z by lia. by rewrite drop_nil.
Qed.

(** ** The size of the blur kernel *)

Section BlurRadius.

Variable Math_exp : float → float.
Variable Math_random : nat → float.

(** For every integer radius from 0 to 20 (the values of the blur dialog)
    the kernel has 2 * radius + 1 weights and the blur of a well-formed
    image returns. For every integer radius from -1000 to -1 the kernel
    size is negative: [new Array(size)] throws, and so does the dispatch
    when such a radius is passed as the [blur] option. *)
Theorem blur_radius_range (img : ImageData) (options : gmap string value)
    (n : Z) :
  valid_ImageData img →
  ((0 ≤ n ≤ 20)%Z →
   ∃ kernel out,
     generateGaussianKernel Math_exp (of_Z n) = Some kernel
     ∧ length kernel = Z.to_nat (2 * n + 1)
     ∧ applyBlur Math_exp img (of_Z n) = Some out)
  ∧ ((-1000 ≤ n ≤ -1)%Z →
     generateGaussianKernel Math_exp (of_Z n) = None
     ∧ processImageData Math_exp Math_random img "blur"
         (<["blur" := VNum (of_Z n)]> options) = None).
Proof.
  intros Hvalid. split.
  - intros Hn.
    assert (kernel_size_ok n = true) as Hok
      by (apply (Zrange_forallb kernel_size_ok 0 21);
          [vm_compute; reflexivity|lia]).
    unfold kernel_size_ok in Hok.
    destruct (kernel_size n) as [m|] eqn:Hm; [|done].
    apply Nat.eqb_eq in Hok.
    assert (∃ kernel, generateGaussianKernel Math_exp (of_Z n) = Some kernel
                      ∧ length kernel = m) as (kernel & Hk & Hlen).
    { unfold generateGaussianKernel. unfold kernel_size in Hm. rewrite Hm.
      cbn [mbind option_bind]. eexists. split; [reflexivity|].
      by rewrite !length_map, length_seq. }
    exists kernel. unfold applyBlur. rewrite Hk. cbn [mbind option_bind].
    rewrite ImageData_new_same_length;
      [|done|by rewrite length_scan; apply length_replicate].
    eexists. split; [done|]. split; [lia|done].
  - intros Hn.
    assert (kernel_size_bad n = true) as Hbad
      by (apply (Zrange_forallb kernel_size_bad (-1000) 1000);
          [vm_compute; reflexivity|lia]).
    unfold kernel_size_bad in Hbad.
    destruct (kernel_size n) as [m|] eqn:Hm; [done|].
    assert (generateGaussianKernel Math_exp (of_Z n) = None) as Hk.
    { unfold generateGaussianKernel. unfold kernel_size in Hm. by rewrite Hm. }
    split; [exact Hk|].
    unfold processImageData. cbn [String.eqb Ascii.eqb Bool.eqb].
    rewrite lookup_insert_eq. unfold or_else. rewrite Hbad.
    cbn [ToNumber]. unfold applyBlur. by rewrite Hk.
Qed.

End BlurRadius.

(** ** Opacity *)

Lemma SFcompare_antisym (x y : spec_float) :
  SFcompare y x = option_map CompOpp (SFcompare x y).
Proof.
  destruct x as [sx|sx| |sx mx ex], y as [sy|sy| |sy my ey]; cbn;
    try (destruct sx); try (destruct sy); try reflexivity.
  - rewrite (Z.compare_antisym ex ey).
    destruct (ex ?= ey)%Z; cbn; try reflexivity.
    rewrite CompOpp_involutive. f_equal.
    exact (Pos.compare_cont_antisym my mx Eq).
  - rewrite (Z.compare_antisym ex ey).
    destruct (ex ?= ey)%Z; cbn; try reflexivity.
    f_equal. symmetry. exact (Pos.compare_cont_antisym mx my Eq).
Qed.

Lemma ltb_leb (x y : float) : (x <? y)%float = true → (x <=? y)%float = true.
Proof.
  rewrite FloatAxioms.ltb_spec, FloatAxioms.leb_spec. unfold SFltb, SFleb.
  by destruct (SFcompare _ _) as [[]|].
Qed.

Lemma not_ltb_leb (x y : float) :
  is_nan x = false → is_nan y = false →
  (x <? y)%float = false → (y <=? x)%float = true.
Proof.
  unfold is_nan.
  rewrite !FloatAxioms.eqb_spec, FloatAxioms.ltb_spec, FloatAxioms.leb_spec.
  unfold SFeqb, SFltb, SFleb.
  rewrite (SFcompare_antisym (Prim2SF x) (Prim2SF y)).
  destruct (Prim2SF x) as [sx|sx| |sx mx ex],
           (Prim2SF y) as [sy|sy| |sy my ey]; cbn; try done;
    try (by destruct sx); try (by destruct sy);
    try (by destruct sx, sy).
  intros _ _. destruct sx, sy; cbn; try done;
    destruct (ex ?= ey)%Z; cbn; try done;
    by destruct (PosDef.Pos.compare_cont Eq mx my).
Qed.

(** [setOpacity] leaves the opacity between 0 and 100 for every Number
    it is given, infinities included; only [NaN] goes through, as
    [NaN]. *)
Theorem setOpacity_range (l : Layer) (v : float) :
  (is_nan v = false →
   (0 <=? opacity (setOpacity l v))%float = true
   ∧ (opacity (setOpacity l v) <=? 100)%float = true)
  ∧ (is_nan v = true → is_nan (opacity (setOpacity l v)) = true).
Proof.
  unfold setOpacity. cbn [opacity]. unfold Math_max, Math_min.
  change (is_nan 100) with false. change (is_nan 0) with false.
  change (get_sign 100) with false. change (get_sign 0) with false.
  cbn [orb]. split.
  - intros Hnan. rewrite Hnan.
    destruct (100 <? v)%float eqn:Hhigh.
    + change (is_nan 100) with false. cbn match.
      change (0 <? 100)%float with true. cbn match. by split.
    + assert ((if (v <? 100)%float then v else v) = v) as ->
        by (by destruct (v <? 100)%float).
      rewrite Hnan.
      destruct (0 <? v)%float eqn:Hlow.
      * split; [by apply ltb_leb|]. by apply not_ltb_leb.
      * assert ((if (v <? 0)%float then 0%float else 0%float) = 0%float) as ->
          by (by destruct (v <? 0)%float).
        by split.
  - intros Hnan. by rewrite Hnan.
Qed.

(** ** The vintage effect *)

Lemma insert3_twice {A} (l : list A) (i : nat) (x y z a b c : A) :
  <[i + 2 := c]> (<[i + 1 := b]> (<[i := a]>
    (<[i + 2 := z]> (<[i + 1 := y]> (<[i := x]> l)))))
  = <[i + 2 := c]> (<[i + 1 := b]> (<[i := a]> l)).
Proof.
  rewrite (list_insert_insert_ne _ i (i + 2)) by lia.
  rewrite (list_insert_insert_ne _ i (i + 1)) by lia.
  rewrite list_insert_insert_eq.
  rewrite (list_insert_insert_ne _ (i + 1) (i + 2)) by lia.
  rewrite list_insert_insert_eq.
  by rewrite list_insert_insert_eq.
Qed.

Lemma vintage_step_stores Math_random (data : list byte) (i : nat) :
  ∃ v0 v1 v2,
    vintage_step Math_random data i
    = <[i + 2 := v2]> (<[i + 1 := v1]> (<[i := v0]> data)).
Proof.
  unfold vintage_step. cbv zeta. eexists _, _, _. apply insert3_twice.
Qed.

(** The vintage effect changes no alpha sample and not the number of
    samples, whatever [Math.random] returns. *)
Theorem applyVintage_keeps_alpha Math_random (d : list byte) :
  length (applyVintage Math_random d) = length d
  ∧ ∀ j, j mod 4 = 3 → applyVintage Math_random d !! j = d !! j.
Proof.
  unfold applyVintage. split.
  - apply rgb_loop_length. apply vintage_step_stores.
  - intros j Hj. apply rgb_loop_alpha; [|apply step4_aligned|done].
    apply vintage_step_stores.
Qed.

(** ** Reordering by drag and drop *)

Lemma lookup_splice_in {A} (t : nat) (x : A) (m : list A) (j : nat) :
  t ≤ length m →
  splice_in t x m !! j
  = if j <? t then m !! j else if j =? t then Some x else m !! (j - 1).
Proof.
  intros Ht. unfold splice_in.
  destruct (Nat.ltb_spec j t).
  - rewrite lookup_app_l by (rewrite length_take; lia).
    apply lookup_take_lt. lia.
  - rewrite lookup_app_r by (rewrite length_take; lia).
    rewrite length_take, Nat.min_l by lia.
    destruct (Nat.eqb_spec j t) as [->|Hne].
    + by rewrite Nat.sub_diag.
    + destruct (j - t) as [|k] eqn:Hk; [lia|].
      change ((x :: drop t m) !! S k) with (drop t m !! k).
      rewrite lookup_drop. f_equal. lia.
Qed.

Lemma lookup_delete_at {A} (d : nat) (l : list A) (j : nat) :
  delete d l !! j = if j <? d then l !! j else l !! S j.
Proof.
  destruct (Nat.ltb_spec j d).
  - by apply list_lookup_delete_lt.
  - by apply list_lookup_delete_ge.
Qed.

(** [reorderLayers] rearranges the layers without losing or repeating
    any and moves the active index with the active layer: the layer that
    was active is still the active one, wherever it went. The dragged
    layer goes to the index the target had, and the document is not
    marked as modified. *)
Theorem reorderLayers_keeps_active (doc : Document)
    (draggedLayerId targetLayerId : string) :
  valid_active doc →
  let doc' := reorderLayers doc draggedLayerId targetLayerId in
  layers doc' ≡ₚ layers doc
  ∧ valid_active doc'
  ∧ getActiveLayer doc' = getActiveLayer doc
  ∧ saved doc' = saved doc
  ∧ ∀ i t l,
      findIndex draggedLayerId (layers doc) = Z.of_nat i →
      findIndex targetLayerId (layers doc) = Z.of_nat t →
      layers doc !! i = Some l →
      layers doc' !! t = Some l.
Proof.
  intros Hvalid doc'. unfold doc', reorderLayers.
  pose proof (findIndex_range draggedLayerId (layers doc)) as Hd.
  pose proof (findIndex_range targetLayerId (layers doc)) as Ht.
  set (di := findIndex draggedLayerId (layers doc)) in *.
  set (ti := findIndex targetLayerId (layers doc)) in *.
  unfold valid_active in Hvalid.
  destruct (Z.eqb_spec di (-1)); cbn [negb andb].
  { split; [done|]. split; [exact Hvalid|]. split; [done|]. split; [done|].
    intros i t l Hi. lia. }
  destruct (Z.eqb_spec ti (-1)); cbn [negb andb].
  { split; [done|]. split; [exact Hvalid|]. split; [done|]. split; [done|].
    intros i t l _ Hi. lia. }
  destruct (Z.eqb_spec di ti) as [Heq|Hne]; cbn [negb].
  { split; [done|]. split; [exact Hvalid|]. split; [done|]. split; [done|].
    intros i t l Hi Hti. assert (i = t) as -> by lia. done. }
  destruct (layers doc !! Z.to_nat di) as [x|] eqn:Hx;
    [|apply lookup_ge_None in Hx; lia].
  assert (length (delete (Z.to_nat di) (layers doc))
          = length (layers doc) - 1) as Hdel.
  { apply length_delete_lt. lia. }
  assert (∀ j,
    splice_in (Z.to_nat ti) x (delete (Z.to_nat di) (layers doc)) !! j
    = if j <? Z.to_nat ti
      then (if j <? Z.to_nat di then layers doc !! j
            else layers doc !! S j)
      else if j =? Z.to_nat ti then Some x
      else (if j - 1 <? Z.to_nat di then layers doc !! (j - 1)
            else layers doc !! S (j - 1))) as Hlookup.
  { intros j. rewrite lookup_splice_in by lia.
    by rewrite !lookup_delete_at. }
  cbn [layers activeLayerIndex saved].
  split; [|split; [|split; [|split]]].
  - unfold splice_in. rewrite <- Permutation_middle.
    rewrite take_drop. symmetry. by apply delete_Permutation.
  - unfold valid_active. cbn [layers activeLayerIndex].
    rewrite length_splice_in, Hdel.
    destruct (Z.eqb_spec (activeLayerIndex doc) di); [lia|].
    destruct (Z.ltb_spec di (activeLayerIndex doc));
      destruct (Z.leb_spec (activeLayerIndex doc) ti); cbn [andb]; try lia;
      destruct (Z.ltb_spec (activeLayerIndex doc) di);
      destruct (Z.leb_spec ti (activeLayerIndex doc)); cbn [andb]; lia.
  - unfold getActiveLayer. cbn [layers activeLayerIndex].
    destruct (Z.leb_spec 0 (activeLayerIndex doc)) as [_|]; [|lia].
    set (a := activeLayerIndex doc) in *.
    destruct (Z.eqb_spec a di) as [Ha|Ha].
    { destruct (Z.leb_spec 0 ti); [|lia]. rewrite Hlookup.
      rewrite Nat.ltb_irrefl, Nat.eqb_refl. by rewrite Ha, Hx. }
    destruct (Z.ltb_spec di a); destruct (Z.leb_spec a ti); cbn [andb].
    + destruct (Z.leb_spec 0 (a - 1)); [|lia]. rewrite Hlookup.
      destruct (Nat.ltb_spec (Z.to_nat (a - 1)) (Z.to_nat ti)); [|lia].
      destruct (Nat.ltb_spec (Z.to_nat (a - 1)) (Z.to_nat di)); [lia|].
      f_equal. lia.
    + destruct (Z.ltb_spec a di); [lia|]. cbn [andb].
      destruct (Z.leb_spec 0 a); [|lia]. rewrite Hlookup.
      destruct (Nat.ltb_spec (Z.to_nat a) (Z.to_nat ti)); [lia|].
      destruct (Nat.eqb_spec (Z.to_nat a) (Z.to_nat ti)); [lia|].
      destruct (Nat.ltb_spec (Z.to_nat a - 1) (Z.to_nat di)); [lia|].
      f_equal. lia.
    + destruct (Z.ltb_spec a di); [|lia].
      destruct (Z.leb_spec ti a); cbn [andb].
      * destruct (Z.leb_spec 0 (a + 1)); [|lia]. rewrite Hlookup.
        destruct (Nat.ltb_spec (Z.to_nat (a + 1)) (Z.to_nat ti)); [lia|].
        destruct (Nat.eqb_spec (Z.to_nat (a + 1)) (Z.to_nat ti)); [lia|].
        destruct (Nat.ltb_spec (Z.to_nat (a + 1) - 1) (Z.to_nat di)); [|lia].
        f_equal. lia.
      * destruct (Z.leb_spec 0 a); [|lia]. rewrite Hlookup.
        destruct (Nat.ltb_spec (Z.to_nat a) (Z.to_nat ti)); [|lia].
        destruct (Nat.ltb_spec (Z.to_nat a) (Z.to_nat di)); [|lia].
        done.
    + destruct (Z.ltb_spec a di); [|lia].
      destruct (Z.leb_spec ti a); cbn [andb]; [|lia].
      destruct (Z.leb_spec 0 (a + 1)); [|lia]. rewrite Hlookup.
      destruct (Nat.ltb_spec (Z.to_nat (a + 1)) (Z.to_nat ti)); [lia|].
      destruct (Nat.eqb_spec (Z.to_nat (a + 1)) (Z.to_nat ti)); [lia|].
      destruct (Nat.ltb_spec (Z.to_nat (a + 1) - 1) (Z.to_nat di)); [|lia].
      f_equal. lia.
  - done.
  - intros i t l Hi Hti Hl. rewrite Hlookup.
    assert (Z.to_nat ti = t) as -> by lia.
    rewrite Nat.ltb_irrefl, Nat.eqb_refl.
    assert (Z.to_nat di = i) as Hdi by lia.
    rewrite Hdi in Hx. congruence.
Qed.

(** ** The event bus *)

Lemma EventBus_eta (bus : EventBus) :
  mkEventBus (events bus) (closures bus) = bus.
Proof. by destruct bus. Qed.

Lemma EventBus_insert_id (bus : EventBus) (event : string)
    (callbacks : list EventCallback) :
  events bus !! event = Some callbacks →
  mkEventBus (<[event := callbacks]> (events bus)) (closures bus) = bus.
Proof. intros H. rewrite insert_id by done. apply EventBus_eta. Qed.

Lemma indexOf_middle (w : EventCallback) (kept rest : list EventCallback) :
  (∀ c, c ∈ kept → EventCallback_eqb c w = false) →
  EventCallback_eqb w w = true →
  indexOf w (kept ++ w :: rest) = Z.of_nat (length kept).
Proof.
  intros Hkept Hw. induction kept as [|c kept IH]; cbn [app indexOf length].
  - by rewrite Hw.
  - rewrite (Hkept c) by (apply elem_of_cons; by left).
    rewrite IH by (intros c' Hc'; apply Hkept, elem_of_cons; by right).
    destruct (Z.ltb_spec (Z.of_nat (length kept)) 0); lia.
Qed.

Lemma once_closure_fresh (k f : nat) (kept rest : list EventCallback) :
  NoDup (once_closures (kept ++ OnceCallback k f :: rest)) →
  ∀ c, c ∈ kept → EventCallback_eqb c (OnceCallback k f) = false.
Proof.
  unfold once_closures. rewrite omap_app. cbn [omap]. intros Hnd c Hc.
  apply NoDup_app in Hnd as (_ & Hnot & _).
  destruct c as [g|k' g]; [done|]. cbn.
  destruct (Nat.eqb_spec k' k) as [->|]; [|done].
  exfalso. apply (Hnot k); [|apply elem_of_cons; by left].
  apply list_elem_of_omap. by exists (OnceCallback k g).
Qed.

Lemma once_closures_without (k f : nat) (kept rest : list EventCallback) :
  NoDup (once_closures (kept ++ OnceCallback k f :: rest)) →
  NoDup (once_closures (kept ++ rest)).
Proof.
  unfold once_closures. rewrite !omap_app.
  change (omap _ (OnceCallback k f :: rest)) with (k :: omap
    (λ c, match c with OnceCallback k _ => Some k | Listener _ => None end)
    rest).
  rewrite <- Permutation_middle. intros Hnd.
  by apply NoDup_cons in Hnd as [_ Hnd].
Qed.

Lemma forEach_past_the_end (n k : nat) (bus : EventBus) (event : string)
    (callbacks : list EventCallback) :
  events bus !! event = Some callbacks → length callbacks ≤ k →
  forEach n k bus event = (bus, []).
Proof.
  revert k. induction n as [|n IH]; intros k Hev Hk; [done|].
  cbn [forEach]. rewrite Hev. cbn [mbind option_bind].
  rewrite (lookup_ge_None_2 callbacks k) by done.
  apply IH; [done|lia].
Qed.

Lemma off_middle (bus : EventBus) (event : string) (k f : nat)
    (kept rest : list EventCallback) :
  events bus !! event = Some (kept ++ OnceCallback k f :: rest) →
  NoDup (once_closures (kept ++ OnceCallback k f :: rest)) →
  off bus event (OnceCallback k f)
  = mkEventBus (<[event := kept ++ rest]> (events bus)) (closures bus).
Proof.
  intros Hev Hnd. unfold off. rewrite Hev.
  rewrite indexOf_middle;
    [|by eapply once_closure_fresh|cbn; apply Nat.eqb_refl].
  destruct (Z.ltb_spec (-1) (Z.of_nat (length kept))); [|lia].
  by rewrite Nat2Z.id, delete_middle.
Qed.

(** The loop of [emit] from the index that follows the callbacks [kept]:
    the callbacks [rest] are still to be visited. *)
Lemma forEach_from (n : nat) :
  ∀ (kept rest : list EventCallback) (bus : EventBus) (event : string),
    events bus !! event = Some (kept ++ rest) →
    NoDup (once_closures (kept ++ rest)) →
    length rest ≤ n →
    forEach n (length kept) bus event
    = (mkEventBus (<[event := kept ++ remaining rest]> (events bus))
                  (closures bus),
       called rest).
Proof.
  induction n as [|n IH]; intros kept rest bus event Hev Hnd Hn.
  { destruct rest; [|cbn in Hn; lia]. cbn [forEach remaining called].
    by rewrite EventBus_insert_id. }
  destruct rest as [|callback rest].
  { rewrite (forEach_past_the_end _ _ _ _ _ Hev)
      by (rewrite length_app; cbn; lia).
    cbn [remaining called]. by rewrite EventBus_insert_id. }
  cbn [forEach]. rewrite Hev. cbn [mbind option_bind].
  rewrite list_lookup_middle by done.
  cbn [length] in Hn.
  destruct callback as [f|k f]; cbn [call].
  - assert (S (length kept) = length (kept ++ [Listener f])) as ->
      by (rewrite length_app; cbn; lia).
    rewrite (IH (kept ++ [Listener f]) rest);
      [|by rewrite <- app_assoc|by rewrite <- app_assoc|lia].
    cbn [remaining called]. by rewrite <- app_assoc.
  - rewrite (off_middle _ _ _ _ _ _ Hev Hnd).
    apply once_closures_without in Hnd.
    destruct rest as [|next rest].
    + rewrite (forEach_past_the_end _ _ _ _ (kept ++ []));
        [|cbn; apply lookup_insert_eq|rewrite length_app; cbn; lia].
      done.
    + assert (S (length kept) = length (kept ++ [next])) as ->
        by (rewrite length_app; cbn; lia).
      rewrite (IH (kept ++ [next]) rest);
        [|cbn; rewrite lookup_insert_eq; by rewrite <- app_assoc
         |by rewrite <- app_assoc|cbn in Hn; lia].
      cbn [events closures remaining called].
      by rewrite insert_insert_eq, <- app_assoc.
Qed.

(** An emit goes through the callbacks of its event in order, but the
    callback that follows a closure of [once] is not called: the closure
    removes itself from the array that [forEach] is going through. It
    stays registered, as do all callbacks but the closures that ran. *)
Theorem emit_calls (bus : EventBus) (event : string)
    (callbacks : list EventCallback) :
  events bus !! event = Some callbacks →
  NoDup (once_closures callbacks) →
  emit bus event
  = (mkEventBus (<[event := remaining callbacks]> (events bus))
                (closures bus),
     called callbacks).
Proof.
  intros Hev Hnd. unfold emit. rewrite Hev.
  exact (forEach_from (length callbacks) [] callbacks bus event Hev Hnd
           (Nat.le_refl _)).
Qed.

(** A listener registered right after a one-time listener misses the
    first event: on a bus with no listener for the event, after
    [once(event, f)] and [on(event, g)] the first emit calls [f] only, and
    the second one calls [g]. *)
Theorem once_hides_next_listener (bus : EventBus) (event : string)
    (f g : nat) :
  events bus !! event = None →
  let bus1 := on (once bus event f) event (Listener g) in
  ∃ bus2,
    emit bus1 event = (bus2, [f])
    ∧ events bus2 !! event = Some [Listener g]
    ∧ emit bus2 event = (bus2, [g]).
Proof.
  intros Hev bus1.
  assert (events bus1 !! event
          = Some [OnceCallback (closures bus) f; Listener g]) as Hev1.
  { unfold bus1, once. unfold on at 2. cbn [events closures]. rewrite Hev.
    unfold on. cbn [events closures default app].
    by rewrite !lookup_insert_eq. }
  assert (NoDup (once_closures [OnceCallback (closures bus) f; Listener g]))
    as Hnd by (cbn; apply NoDup_singleton).
  eexists. split; [|split].
  - unfold emit. rewrite Hev1.
    exact (forEach_from 2 [] _ bus1 event Hev1 Hnd (Nat.le_refl _)).
  - cbn [events remaining]. apply lookup_insert_eq.
  - unfold emit. cbn [events remaining]. rewrite lookup_insert_eq.
    rewrite (forEach_from 1 [] [Listener g]);
      [|cbn; apply lookup_insert_eq|cbn; constructor|cbn; lia].
    cbn [events closures remaining called app]. by rewrite insert_insert_eq.
Qed.

(** Without one-time listeners an emit calls every callback of the event,
    in the order of registration, and leaves the bus as it was. *)
Theorem emit_listeners (bus : EventBus) (event : string) (fs : list nat) :
  events bus !! event = Some (map Listener fs) →
  emit bus event = (bus, fs).
Proof.
  assert (∀ l : list nat, once_closures (map Listener l) = []) as Hnone.
  { intros l. induction l as [|f l IH]; [done|]. exact IH. }
  assert (∀ l : list nat, remaining (map Listener l) = map Listener l)
    as Hremaining.
  { intros l. induction l as [|f l IH]; [done|]. cbn. by rewrite IH. }
  assert (∀ l : list nat, called (map Listener l) = l) as Hcalled.
  { intros l. induction l as [|f l IH]; [done|]. cbn. by rewrite IH. }
  intros Hev. unfold emit. rewrite Hev.
  rewrite (forEach_from _ [] (map Listener fs));
    [|done|cbn [app]; rewrite Hnone; constructor|done].
  rewrite Hremaining, Hcalled. cbn [app]. by rewrite EventBus_insert_id.
Qed.

(** ** Recording after an undo *)

(** An undo pauses the recording: a state added before the timer of
    [restoreState] fires is lost without notice. Once recording is
    resumed, a state added takes the place of the state that was undone,
    and the states after it are dropped. *)
Theorem undo_pauses_recording (hm : HistoryManager) (state : HistoryState) :
  valid_history hm → canUndo hm = true →
  ∃ hm1 s,
    undo hm = Some (hm1, Some s)
    ∧ addState hm1 (Some state) = hm1
    ∧ let hm2 := addState (resumeRecording hm1) (Some state) in
      currentIndex hm2 = currentIndex hm
      ∧ state_at hm2 (currentIndex hm) = Some state
      ∧ history hm2
        = take (Z.to_nat (currentIndex hm)) (history hm) ++ [state].
Proof.
  intros (Hrange & Hempty & Hmax & Hlen) Hcan.
  unfold canUndo in Hcan. apply Z.ltb_lt in Hcan.
  destruct (lookup_lt_is_Some_2 (history hm) (Z.to_nat (currentIndex hm - 1)))
    as [s Hs]; [lia|].
  eexists _, s. split; [|split].
  - unfold undo, canUndo, restore_at, state_at.
    destruct (Z.ltb_spec 0 (currentIndex hm)); [|lia]. cbn [negb].
    destruct (Z.leb_spec 0 (currentIndex hm - 1)); [|lia].
    rewrite Hs. reflexivity.
  - reflexivity.
  - cbv zeta. unfold addState, resumeRecording.
    cbn [isRecording negb history currentIndex maxHistorySize].
    replace (currentIndex hm - 1 + 1)%Z with (currentIndex hm) by lia.
    assert (slice_to (history hm) (currentIndex hm)
            = take (Z.to_nat (currentIndex hm)) (history hm)) as ->.
    { unfold slice_to. by destruct (Z.ltb_spec (currentIndex hm) 0); [lia|]. }
    assert (length (take (Z.to_nat (currentIndex hm)) (history hm) ++ [state])
            = Z.to_nat (currentIndex hm) + 1) as Hl.
    { rewrite length_app, length_take. cbn. lia. }
    rewrite Hl.
    destruct (Z.ltb_spec (maxHistorySize hm)
                (Z.of_nat (Z.to_nat (currentIndex hm) + 1))); [lia|].
    cbn [currentIndex history]. split; [lia|]. split; [|done].
    unfold state_at. cbn [history].
    destruct (Z.leb_spec 0 (currentIndex hm)); [|lia].
    apply list_lookup_middle. rewrite length_take. lia.
Qed.

(** ** The further theorems at concrete inputs *)

Lemma valid_rgbw : valid_ImageData rgbw.
Proof. unfold valid_ImageData. simpl. lia. Defined.

Lemma valid_active_three_layers : valid_active three_layers.
Proof. unfold valid_active. simpl. lia. Defined.

Lemma valid_three_states : valid_history three_states.
Proof.
  unfold valid_history. simpl.
  split; [lia|]. split; [intros H; discriminate H|]. split; lia.
Defined.

Lemma processImageData_keeps_size_sepia :
  valid_ImageData rgbw
  ∧ (("sepia" ≠ "blur" →
      is_Some (processImageData exp_series random_alternating rgbw "sepia" ∅))
     ∧ ∀ out,
         processImageData exp_series random_alternating rgbw "sepia" ∅
         = Some out →
         width out = width rgbw ∧ height out = height rgbw
         ∧ length (data out) = length (data rgbw)).
Proof.
  split; [exact valid_rgbw|].
  exact (processImageData_keeps_size exp_series random_alternating rgbw
           "sepia" ∅ valid_rgbw).
Defined.

Lemma processImageData_keeps_alpha_noise :
  valid_ImageData rgbw ∧ "noise" ≠ "blur"
  ∧ ∃ out,
      processImageData exp_series random_alternating rgbw "noise" ∅ = Some out
      ∧ ∀ x y, x < width rgbw → y < height rgbw →
          data out !! ((y * width rgbw + x) * 4 + 3)
          = data rgbw !! ((y * width rgbw + x) * 4 + 3).
Proof.
  assert ("noise" ≠ "blur") as Hne by discriminate.
  split; [exact valid_rgbw|]. split; [exact Hne|].
  exact (processImageData_keeps_alpha exp_series random_alternating rgbw
           "noise" ∅ valid_rgbw Hne).
Defined.

Lemma applyGrayscale_gray_rgbw :
  4 * 1 + 3 < length (data rgbw)
  ∧ ∃ y, applyGrayscale (data rgbw) !! (4 * 1) = Some y
         ∧ applyGrayscale (data rgbw) !! (4 * 1 + 1) = Some y
         ∧ applyGrayscale (data rgbw) !! (4 * 1 + 2) = Some y
         ∧ applyGrayscale (data rgbw) !! (4 * 1 + 3) = data rgbw !! (4 * 1 + 3).
Proof.
  assert (4 * 1 + 3 < length (data rgbw)) as H by (simpl; lia).
  split; [exact H|]. exact (applyGrayscale_gray (data rgbw) 1 H).
Defined.

Lemma applyMedianFilter_size_1_rgbw :
  valid_ImageData rgbw ∧ applyMedianFilter rgbw 1 = Some rgbw.
Proof.
  split; [exact valid_rgbw|]. exact (applyMedianFilter_size_1 rgbw valid_rgbw).
Defined.

Lemma applyMedianFilter_median_rgbw :
  valid_ImageData rgbw ∧ 0 < width rgbw ∧ 0 < height rgbw ∧ 1 < 3
  ∧ let vals := window_samples (data rgbw) (width rgbw) (height rgbw)
                               (3 / 2) 0 0 1 in
    ∃ out m,
      applyMedianFilter rgbw 3 = Some out
      ∧ data out !! ((0 * width rgbw + 0) * 4 + 1) = Some m
      ∧ length vals = (2 * (3 / 2) + 1) * (2 * (3 / 2) + 1)
      ∧ m ∈ vals
      ∧ count_below m vals ≤ length vals / 2
      ∧ count_above m vals ≤ length vals / 2.
Proof.
  assert (0 < width rgbw) as Hx by (simpl; lia).
  assert (0 < height rgbw) as Hy by (simpl; lia).
  assert (1 < 3) as Hc by lia.
  split; [exact valid_rgbw|]. split; [exact Hx|]. split; [exact Hy|].
  split; [exact Hc|].
  exact (applyMedianFilter_median rgbw 3 0 0 1 valid_rgbw Hx Hy Hc).
Defined.

Lemma applyOilPainting_keeps_alpha_rgbw :
  valid_ImageData rgbw
  ∧ ∃ out, applyOilPainting rgbw = Some out
           ∧ width out = width rgbw ∧ height out = height rgbw
           ∧ ∀ x y, x < width rgbw → y < height rgbw →
               data out !! ((y * width rgbw + x) * 4 + 3)
               = data rgbw !! ((y * width rgbw + x) * 4 + 3).
Proof.
  split; [exact valid_rgbw|].
  apply (rank_filters_keep_alpha rgbw valid_rgbw applyOilPainting).
  apply elem_of_cons. right. apply elem_of_cons. left. reflexivity.
Defined.

Lemma applyConvolution_identity_kernel_rgbw :
  valid_ImageData rgbw
  ∧ applyConvolution rgbw [0; 0; 0; 0; 1; 0; 0; 0; 0]%float 3 = Some rgbw.
Proof.
  split; [exact valid_rgbw|].
  exact (applyConvolution_identity_kernel rgbw valid_rgbw).
Defined.

Lemma applySketch_gray_rgbw :
  valid_ImageData rgbw
  ∧ ∃ out, applySketch rgbw = Some out
      ∧ width out = width rgbw ∧ height out = height rgbw
      ∧ ∀ x y, x < width rgbw → y < height rgbw →
          ∃ v, data out !! ((y * width rgbw + x) * 4) = Some v
               ∧ data out !! ((y * width rgbw + x) * 4 + 1) = Some v
               ∧ data out !! ((y * width rgbw + x) * 4 + 2) = Some v
               ∧ data out !! ((y * width rgbw + x) * 4 + 3)
                 = data rgbw !! ((y * width rgbw + x) * 4 + 3).
Proof.
  split; [exact valid_rgbw|]. exact (applySketch_gray rgbw valid_rgbw).
Defined.

Lemma blur_radius_3_and_minus_3 :
  valid_ImageData rgbw
  ∧ (∃ kernel out,
       generateGaussianKernel exp_series (of_Z 3) = Some kernel
       ∧ length kernel = Z.to_nat (2 * 3 + 1)
       ∧ applyBlur exp_series rgbw (of_Z 3) = Some out)
  ∧ generateGaussianKernel exp_series (of_Z (-3)) = None
  ∧ processImageData exp_series random_alternating rgbw "blur"
      (<["blur" := VNum (of_Z (-3))]> ∅) = None.
Proof.
  split; [exact valid_rgbw|]. split.
  - apply (blur_radius_range exp_series random_alternating rgbw ∅ 3 valid_rgbw).
    lia.
  - apply (blur_radius_range exp_series random_alternating rgbw ∅ (-3)
             valid_rgbw).
    lia.
Defined.

Lemma active_index_kept_three_layers :
  valid_active three_layers
  ∧ (∀ layer, valid_active (addLayer three_layers layer))
  ∧ (∀ layerId newIndex, valid_active (moveLayer three_layers layerId newIndex))
  ∧ (∀ layerId, valid_active (setActiveLayer three_layers layerId))
  ∧ (∀ layerId,
       valid_active (mergeDown supported_basic drawImage_copy three_layers
                               layerId))
  ∧ (∀ newId,
       valid_active (flattenImage supported_basic drawImage_copy newId
                                  three_layers))
  ∧ (∀ newId layerId,
       valid_active (duplicateLayer drawImage_copy newId three_layers
                                    layerId).1).
Proof.
  split; [exact valid_active_three_layers|].
  exact (active_index_kept supported_basic drawImage_copy three_layers
           valid_active_three_layers).
Defined.

Lemma removeLayer_layer_b :
  valid_active three_layers
  ∧ (∃ l, l ∈ layers three_layers ∧ isBackground l = true)
  ∧ List.filter isBackground (layers (removeLayer three_layers "layer_b"))
    = List.filter isBackground (layers three_layers)
  ∧ layers (removeLayer three_layers "layer_b") ≠ []
  ∧ valid_active (removeLayer three_layers "layer_b").
Proof.
  assert (∃ l, l ∈ layers three_layers ∧ isBackground l = true) as Hbg.
  { eexists. split; [apply elem_of_cons; left; reflexivity|reflexivity]. }
  split; [exact valid_active_three_layers|]. split; [exact Hbg|].
  split.
  - exact (proj1 (removeLayer_keeps_background three_layers "layer_b")).
  - exact (proj2 (removeLayer_keeps_background three_layers "layer_b")
                 valid_active_three_layers Hbg).
Defined.

Lemma removeLayer_after_flattenImage_three_layers :
  2 ≤ length (layers three_layers)
  ∧ let doc' :=
      removeLayer (flattenImage supported_basic drawImage_copy "layer_d"
                                three_layers) "layer_d" in
    layers doc' = [] ∧ activeLayerIndex doc' = (-1)%Z
    ∧ getActiveLayer doc' = None.
Proof.
  assert (2 ≤ length (layers three_layers)) as H by (simpl; lia).
  split; [exact H|].
  exact (removeLayer_after_flattenImage supported_basic drawImage_copy
           "layer_d" three_layers H).
Defined.

Lemma deleteActiveLayer_three_layers :
  valid_active three_layers
  ∧ ∃ doc',
      deleteActiveLayer true three_layers = Some doc'
      ∧ layers doc' ≠ []
      ∧ valid_active doc'
      ∧ (NoDup (map id (layers three_layers)) →
         ∀ l, getActiveLayer three_layers = Some l → isBackground l = true →
              doc' = three_layers).
Proof.
  split; [exact valid_active_three_layers|].
  exact (deleteActiveLayer_safe true three_layers valid_active_three_layers).
Defined.

Lemma moveLayer_layer_c_down :
  findIndex "layer_c" (layers three_layers) = Z.of_nat 2
  ∧ layers three_layers !! 2 = Some (new_Layer "layer_c" "Layer 2" 1 1 None)
  ∧ (0 ≤ 0 < Z.of_nat (length (layers three_layers)))%Z
  ∧ let doc' := moveLayer three_layers "layer_c" 0 in
    layers doc' ≡ₚ layers three_layers
    ∧ layers doc' !! Z.to_nat 0
      = Some (new_Layer "layer_c" "Layer 2" 1 1 None)
    ∧ activeLayerIndex doc' = 0%Z
    ∧ saved doc' = false.
Proof.
  assert (findIndex "layer_c" (layers three_layers) = Z.of_nat 2) as Hi
    by reflexivity.
  assert (layers three_layers !! 2
          = Some (new_Layer "layer_c" "Layer 2" 1 1 None)) as Hl
    by reflexivity.
  assert (0 ≤ 0 < Z.of_nat (length (layers three_layers)))%Z as Hn
    by (simpl; lia).
  split; [exact Hi|]. split; [exact Hl|]. split; [exact Hn|].
  exact (moveLayer_permutes three_layers "layer_c" 2 _ 0 Hi Hl Hn).
Defined.

Lemma mergeDown_layer_c :
  findIndex "layer_c" (layers three_layers) = Z.of_nat 2
  ∧ let doc' :=
      mergeDown supported_basic drawImage_copy three_layers "layer_c" in
    map id (layers doc') = delete 2 (map id (layers three_layers))
    ∧ length (layers doc') = length (layers three_layers) - 1
    ∧ activeLayerIndex doc' = Z.of_nat 1
    ∧ saved doc' = false.
Proof.
  assert (findIndex "layer_c" (layers three_layers) = Z.of_nat 2) as Hi
    by reflexivity.
  split; [exact Hi|].
  exact (mergeDown_upper_layer supported_basic drawImage_copy three_layers
           "layer_c" 1 Hi).
Defined.

Lemma duplicateLayer_background :
  findIndex "layer_a" (layers three_layers) = Z.of_nat 0
  ∧ ∃ d doc',
      duplicateLayer drawImage_copy "layer_d" three_layers "layer_a"
      = (doc', Some d)
      ∧ layers doc' = layers three_layers ++ [d]
      ∧ activeLayerIndex doc' = Z.of_nat (length (layers three_layers))
      ∧ id d = "layer_d" ∧ name d = "Background" +:+ " copy"
      ∧ isBackground d = false.
Proof.
  assert (findIndex "layer_a" (layers three_layers) = Z.of_nat 0) as Hi
    by reflexivity.
  split; [exact Hi|].
  destruct (proj2 (duplicateLayer_copy drawImage_copy "layer_d" three_layers
                     "layer_a") 0 _ Hi eq_refl)
    as (d & doc' & H1 & H2 & H3 & H4 & H5 & H6 & _).
  exists d, doc'. repeat split; assumption.
Defined.

Lemma addToRecentFiles_again :
  NoDup ["a.pxf"; "b.pxf"; "c.pxf"]
  ∧ let r := addToRecentFiles ["a.pxf"; "b.pxf"; "c.pxf"] "b.pxf" in
    r = ["b.pxf"; "a.pxf"; "c.pxf"] ∧ NoDup r
    ∧ addToRecentFiles r "b.pxf" = r.
Proof.
  assert (NoDup ["a.pxf"; "b.pxf"; "c.pxf"]) as Hnd.
  { repeat constructor; intros Hin;
      repeat (apply elem_of_cons in Hin as [Hin|Hin]; [discriminate Hin|]);
      by apply elem_of_nil in Hin. }
  split; [exact Hnd|].
  destruct (addToRecentFiles_list ["a.pxf"; "b.pxf"; "c.pxf"] "b.pxf")
    as (_ & _ & _ & Hn & Hi).
  split; [reflexivity|]. split; [exact (Hn Hnd)|exact Hi].
Defined.

Lemma addState_on_three_states :
  valid_history three_states ∧ isRecording three_states = true
  ∧ let hm' := addState three_states (Some (snapshot "history_4" "Apply Sepia")) in
    valid_history hm'
    ∧ state_at hm' (currentIndex hm')
      = Some (snapshot "history_4" "Apply Sepia")
    ∧ last (history hm') = Some (snapshot "history_4" "Apply Sepia")
    ∧ canRedo hm' = false
    ∧ length (history hm') ≤ Z.to_nat (currentIndex three_states + 2).
Proof.
  split; [exact valid_three_states|]. split; [reflexivity|].
  exact (proj2 (proj2 (addState_records three_states
                         (snapshot "history_4" "Apply Sepia")
                         valid_three_states)) eq_refl).
Defined.

Lemma undo_redo_three_states :
  valid_history three_states ∧ canUndo three_states = true
  ∧ ∃ hm1 s1 hm2 s2,
      undo three_states = Some (hm1, Some s1)
      ∧ redo hm1 = Some (hm2, Some s2)
      ∧ valid_history hm1
      ∧ state_at three_states (currentIndex three_states - 1) = Some s1
      ∧ state_at three_states (currentIndex three_states) = Some s2
      ∧ history hm2 = history three_states
      ∧ currentIndex hm2 = currentIndex three_states.
Proof.
  split; [exact valid_three_states|]. split; [reflexivity|].
  exact (proj1 (undo_redo three_states valid_three_states) eq_refl).
Defined.

Lemma setMaxHistorySize_2 :
  valid_history three_states ∧ history three_states ≠ []
  ∧ history (setMaxHistorySize three_states 2)
    = drop 1 (history three_states)
  ∧ valid_history (setMaxHistorySize three_states 2)
  ∧ valid_history new_HistoryManager
  ∧ currentIndex (setMaxHistorySize new_HistoryManager 10) = 0%Z
  ∧ state_at (setMaxHistorySize new_HistoryManager 10) 0 = None.
Proof.
  assert (history three_states ≠ []) as Hne by discriminate.
  assert (valid_history new_HistoryManager) as Hnew.
  { unfold valid_history. simpl. split; [lia|]. split; [done|]. split; lia. }
  destruct (setMaxHistorySize_trims three_states 2)
    as (_ & Hh & _ & _ & Hv & _).
  destruct (setMaxHistorySize_trims new_HistoryManager 10)
    as (_ & _ & _ & _ & _ & He).
  split; [exact valid_three_states|]. split; [exact Hne|].
  split; [exact Hh|]. split; [exact (Hv valid_three_states Hne)|].
  split; [exact Hnew|]. exact (He Hnew eq_refl).
Defined.

Lemma setOpacity_150 :
  is_nan 150 = false
  ∧ (0 <=? opacity (setOpacity (new_Layer "layer_a" "Background" 1 1 None) 150))%float
    = true
  ∧ (opacity (setOpacity (new_Layer "layer_a" "Background" 1 1 None) 150)
     <=? 100)%float = true.
Proof.
  split; [reflexivity|].
  exact (proj1 (setOpacity_range (new_Layer "layer_a" "Background" 1 1 None) 150)
               eq_refl).
Defined.

Lemma reorderLayers_layer_c_first :
  valid_active three_layers
  ∧ let doc' := reorderLayers three_layers "layer_c" "layer_a" in
    layers doc' ≡ₚ layers three_layers
    ∧ valid_active doc'
    ∧ getActiveLayer doc' = getActiveLayer three_layers
    ∧ saved doc' = saved three_layers
    ∧ ∀ i t l,
        findIndex "layer_c" (layers three_layers) = Z.of_nat i →
        findIndex "layer_a" (layers three_layers) = Z.of_nat t →
        layers three_layers !! i = Some l →
        layers doc' !! t = Some l.
Proof.
  split; [exact valid_active_three_layers|].
  exact (reorderLayers_keeps_active three_layers "layer_c" "layer_a"
           valid_active_three_layers).
Defined.

Lemma emit_three_callbacks :
  events three_callbacks !! "layer:updated"
  = Some [OnceCallback 0 1; OnceCallback 1 2; Listener 3]
  ∧ NoDup (once_closures [OnceCallback 0 1; OnceCallback 1 2; Listener 3])
  ∧ (emit three_callbacks "layer:updated").2 = [1; 3]
  ∧ events (emit three_callbacks "layer:updated").1 !! "layer:updated"
    = Some [OnceCallback 1 2; Listener 3].
Proof.
  assert (events three_callbacks !! "layer:updated"
          = Some [OnceCallback 0 1; OnceCallback 1 2; Listener 3]) as Hev
    by reflexivity.
  assert (NoDup (once_closures
                   [OnceCallback 0 1; OnceCallback 1 2; Listener 3])) as Hnd.
  { cbn. apply NoDup_cons. split; [|apply NoDup_singleton].
    intros Hin. apply elem_of_cons in Hin as [Hin|Hin]; [discriminate Hin|].
    by apply elem_of_nil in Hin. }
  split; [exact Hev|]. split; [exact Hnd|].
  rewrite (emit_calls three_callbacks "layer:updated" _ Hev Hnd).
  split; [reflexivity|]. cbn [fst events remaining]. apply lookup_insert_eq.
Defined.

Lemma once_hides_next_listener_new_bus :
  events new_EventBus !! "layer:updated" = None
  ∧ ∃ bus2,
      emit (on (once new_EventBus "layer:updated" 1) "layer:updated"
               (Listener 2)) "layer:updated" = (bus2, [1])
      ∧ events bus2 !! "layer:updated" = Some [Listener 2]
      ∧ emit bus2 "layer:updated" = (bus2, [2]).
Proof.
  assert (events new_EventBus !! "layer:updated" = None) as Hev
    by reflexivity.
  split; [exact Hev|].
  exact (once_hides_next_listener new_EventBus "layer:updated" 1 2 Hev).
Defined.

Lemma emit_two_listeners :
  events two_listeners !! "layer:added" = Some (map Listener [1; 2])
  ∧ emit two_listeners "layer:added" = (two_listeners, [1; 2]).
Proof.
  assert (events two_listeners !! "layer:added" = Some (map Listener [1; 2]))
    as Hev by reflexivity.
  split; [exact Hev|].
  exact (emit_listeners two_listeners "layer:added" [1; 2] Hev).
Defined.

Lemma undo_pauses_recording_three_states :
  valid_history three_states ∧ canUndo three_states = true
  ∧ ∃ hm1 s,
      undo three_states = Some (hm1, Some s)
      ∧ addState hm1 (Some (snapshot "history_4" "Apply Sepia")) = hm1
      ∧ let hm2 :=
          addState (resumeRecording hm1)
                   (Some (snapshot "history_4" "Apply Sepia")) in
        currentIndex hm2 = currentIndex three_states
        ∧ state_at hm2 (currentIndex three_states)
          = Some (snapshot "history_4" "Apply Sepia")
        ∧ history hm2
          = take (Z.to_nat (currentIndex three_states)) (history three_states)
            ++ [snapshot "history_4" "Apply Sepia"].
Proof.
  split; [exact valid_three_states|]. split; [reflexivity|].
  exact (undo_pauses_recording three_states
           (snapshot "history_4" "Apply Sepia") valid_three_states eq_refl).
Defined.
